(** * py-check-imports: unused and duplicate import detection

    A shallow embedding of [py_check_imports.py].  The Python [ast] tree is a
    rose tree whose node classes are the ones the program distinguishes
    ([Import], [ImportFrom], [Name], [Attribute]) plus a generic node for
    every other class; [ast.walk], the [ast.NodeVisitor] subclass, the three
    accumulators of the analyzer, the result dicts and the batch runner
    [main] are transcribed from the source.  The file system, the parser,
    [json.dumps], the frames the interpreter still grants and the encoder of
    the output stream are fields of a [world] record. *)

From Stdlib Require Import ZArith String Ascii List.
From stdpp Require Import gmap strings list fin_maps sorting pretty.

Local Open Scope string_scope.
Local Open Scope Z_scope.
Local Open Scope list_scope.

Set Warnings "-register-all,-clear-no-such-hyp".

(** ** Strings *)

Definition dot : ascii := "."%char.
Definition nl : string := String "010"%char EmptyString.

(** [s.split(".")[0]]: the text before the first dot (all of [s] when it has
    none). *)
Fixpoint split_dot_head (s : string) : string :=
  match s with
  | EmptyString => EmptyString
  | String c r => if Ascii.eqb c dot then EmptyString else String c (split_dot_head r)
  end.

(** [s.endswith(suffix)]. *)
Definition endswith (s suffix : string) : bool :=
  let n := String.length s in
  let k := String.length suffix in
  (k <=? n)%nat && String.eqb (String.substring (n - k) k s) suffix.

(** Truth value of [x] in [x if x else y] for a field holding [None] or a
    [str]: [None] and the empty string are false. *)
Definition truthy (x : option string) : bool :=
  match x with
  | Some s => negb (String.eqb s "")
  | None => false
  end.

Definition str_or_empty (x : option string) : string :=
  match x with Some s => s | None => "" end.

(** ** The syntax tree *)

(** [ast.alias]: [name] and the optional [asname]. *)
Record alias := Alias { alias_name : string; alias_asname : option string }.

Inductive expr_context := Load | Store | Del.

(** The nodes of [ast].  [Other] stands for a node of any class the program
    does not single out (Module, FunctionDef, Call, Assign, ...), with its
    child nodes in the order [ast.iter_child_nodes] yields them.  Of the
    fields that are not nodes only those the program reads are kept
    ([ImportFrom.level] is not). *)
Inductive node :=
| Import (lineno : Z) (names : list alias)
| ImportFrom (lineno : Z) (module : option string) (names : list alias)
| Name (id : string) (ctx : expr_context)
| Attribute (value : node) (attr : string) (ctx : expr_context)
| AliasNode (a : alias)
| Ctx (c : expr_context)
| Other (children : list node).

(** [ast.iter_child_nodes]. *)
Definition iter_child_nodes (n : node) : list node :=
  match n with
  | Import _ names => map AliasNode names
  | ImportFrom _ _ names => map AliasNode names
  | Name _ c => [Ctx c]
  | Attribute v _ c => [v; Ctx c]
  | AliasNode _ => []
  | Ctx _ => []
  | Other cs => cs
  end.

(** Number of nodes of a tree. *)
Fixpoint size (n : node) : nat :=
  match n with
  | Import _ names => S (length names)
  | ImportFrom _ _ names => S (length names)
  | Name _ _ => 2
  | Attribute v _ _ => S (S (size v))
  | AliasNode _ => 1
  | Ctx _ => 1
  | Other cs => S (list_sum (map size cs))
  end.

(** Number of levels of a tree. *)
Fixpoint height (n : node) : nat :=
  match n with
  | Import _ _ => 2
  | ImportFrom _ _ _ => 2
  | Name _ _ => 2
  | Attribute v _ _ => S (Nat.max (height v) 1)
  | AliasNode _ => 1
  | Ctx _ => 1
  | Other cs => S (foldr Nat.max 0%nat (map height cs))
  end.

(** [ast.walk]: a deque seeded with the root; each step pops the leftmost
    node, appends its children on the right and yields it.  One unit of fuel
    per popped node. *)
Fixpoint walk_fuel (fuel : nat) (todo : list node) : list node :=
  match fuel with
  | O => []
  | S fuel' =>
      match todo with
      | [] => []
      | n :: rest => n :: walk_fuel fuel' (rest ++ iter_child_nodes n)
      end
  end.

Definition walk (tree : node) : list node := walk_fuel (size tree) [tree].

(** Document (pre-) order of the nodes of a tree. *)
Fixpoint pre_order (n : node) : list node :=
  n :: match n with
       | Import _ names => map AliasNode names
       | ImportFrom _ _ names => map AliasNode names
       | Name _ c => [Ctx c]
       | Attribute v _ c => pre_order v ++ [Ctx c]
       | AliasNode _ => []
       | Ctx _ => []
       | Other cs => concat (map pre_order cs)
       end.

(** The nodes level by level, each level left to right: [d] levels starting
    from the level [q]. *)
Fixpoint level_order (d : nat) (q : list node) : list node :=
  match d with
  | O => []
  | S d' => q ++ level_order d' (concat (map iter_child_nodes q))
  end.

(** ** Exceptions and results *)

(** The exception classes that reading, parsing and dict lookup can raise. *)
Inductive exn_class :=
| FileNotFoundError | PermissionError | IsADirectoryError | OSError
| SyntaxError | IndentationError | TabError
| UnicodeDecodeError | ValueError | RecursionError | MemoryError
| KeyError | TypeError.

(** An exception: its class and [str(e)]. *)
Record exn := Exn { exn_cls : exn_class; exn_str : string }.

(** [issubclass c base] on the classes above. *)
Definition issubclass (c base : exn_class) : bool :=
  match base, c with
  | FileNotFoundError, FileNotFoundError => true
  | PermissionError, PermissionError => true
  | IsADirectoryError, IsADirectoryError => true
  | OSError, (OSError | FileNotFoundError | PermissionError | IsADirectoryError) => true
  | SyntaxError, (SyntaxError | IndentationError | TabError) => true
  | IndentationError, (IndentationError | TabError) => true
  | TabError, TabError => true
  | UnicodeDecodeError, UnicodeDecodeError => true
  | ValueError, (ValueError | UnicodeDecodeError) => true
  | RecursionError, RecursionError => true
  | MemoryError, MemoryError => true
  | KeyError, KeyError => true
  | TypeError, TypeError => true
  | _, _ => false
  end.

(** A computation returns a value or raises. *)
Inductive result (A : Type) :=
| Ok (a : A)
| Raise (e : exn).
Arguments Ok {A} a.
Arguments Raise {A} e.

Global Instance result_ret : MRet result := λ A a, Ok a.
Global Instance result_bind : MBind result := λ A B f m,
  match m with
  | Ok a => f a
  | Raise e => Raise e
  end.

(** ** Result dicts *)

Inductive value :=
| VStr (s : string)
| VInt (z : Z)
| VLines (l : list Z).

(** A result dict, [{"file": ..., "line": ..., ...}]: the items in insertion
    order. *)
Abbreviation record := (list (string * value)).

(** [r.get(k)]. *)
Fixpoint dict_get (k : string) (r : record) : option value :=
  match r with
  | [] => None
  | (k', v) :: r' => if String.eqb k' k then Some v else dict_get k r'
  end.

(** ["k" in r]. *)
Definition has_key (k : string) (r : record) : bool :=
  match dict_get k r with Some _ => true | None => false end.

Definition error_record (filename msg : string) : record :=
  [("file", VStr filename); ("error", VStr msg)].

Definition unused_record (filename : string) (lineno : Z) (stmt : string) : record :=
  [("file", VStr filename); ("line", VInt lineno); ("import_statement", VStr stmt)].

Definition duplicate_record (filename : string) (lines : list Z) (stmt : string) : record :=
  [("file", VStr filename); ("lines", VLines lines); ("import_statement", VStr stmt)].

(** [r[k]] where the program goes on to use it as a [str], an [int] or a list
    of [int]: a missing key raises [KeyError].  A value of another type, which
    no record built by the program holds, is made to raise [TypeError]. *)
Definition get_str (r : record) (k : string) : result string :=
  match dict_get k r with
  | Some (VStr s) => Ok s
  | Some _ => Raise (Exn TypeError k)
  | None => Raise (Exn KeyError k)
  end.

Definition get_int (r : record) (k : string) : result Z :=
  match dict_get k r with
  | Some (VInt z) => Ok z
  | Some _ => Raise (Exn TypeError k)
  | None => Raise (Exn KeyError k)
  end.

Definition get_lines (r : record) (k : string) : result (list Z) :=
  match dict_get k r with
  | Some (VLines l) => Ok l
  | Some _ => Raise (Exn TypeError k)
  | None => Raise (Exn KeyError k)
  end.

(** ** The environment of a run *)

Record world := World {
  (** [open(filename, "r", encoding="utf-8")] followed by [f.read()]. *)
  read_text : string → result string;
  (** [ast.parse(source, filename=filename)]. *)
  ast_parse : string → string → result node;
  os_path_isdir : string → bool;
  os_path_isfile : string → bool;
  (** [os.walk(directory)]: the triples [(root, dirs, files)]. *)
  os_walk : string → list (string * list string * list string);
  os_path_join : string → string → string;
  (** [json.dumps(output, indent=2)] of the three sorted collections. *)
  json_dumps : list record → list record → list record → string;
  (** The Python frames the interpreter still grants when line 57 calls the
      visitor: [sys.getrecursionlimit()] less the frames in use. *)
  frames_left : nat;
  (** What [print] raises when the encoder of [sys.stdout] rejects the text
      (a [UnicodeEncodeError], as for a file name with undecodable bytes);
      [None] when the text is written. *)
  stdout_error : string → option exn
}.

(** Iteration order of a [set] of [str]: some enumeration of its elements,
    fixed by the string hashes of the running process. *)
Record set_order := SetOrder {
  iter_set : gset string → list string;
  iter_set_perm : ∀ s, iter_set s ≡ₚ elements s
}.

(** ** The per-file analyzer *)

(** The three accumulators of lines 23-25.  [import_statements] is a
    [defaultdict(list)], iterated in insertion order at line 68: an
    association list with unique keys. *)
Record tables := Tables {
  imports : gset string;
  import_aliases : gmap string (Z * string);
  import_statements : list (string * list Z)
}.

Definition empty_tables : tables := Tables ∅ ∅ [].

(** [import_statements[stmt_str].append(lineno)]. *)
Fixpoint append_line (stmt_str : string) (lineno : Z)
    (d : list (string * list Z)) : list (string * list Z) :=
  match d with
  | [] => [(stmt_str, [lineno])]
  | (k, v) :: d' =>
      if String.eqb k stmt_str then (k, v ++ [lineno]) :: d'
      else (k, v) :: append_line stmt_str lineno d'
  end.

(** Lines 34-36 and 44-46. *)
Definition record_import (lineno : Z) (name stmt_str : string) (t : tables) : tables :=
  Tables ({[name]} ∪ imports t)
         (<[name := (lineno, stmt_str)]> (import_aliases t))
         (append_line stmt_str lineno (import_statements t)).

Definition as_clause (a : alias) : string :=
  if truthy (alias_asname a) then " as " +:+ str_or_empty (alias_asname a) else "".

(** Lines 30-33. *)
Definition import_name (a : alias) : string :=
  if truthy (alias_asname a) then str_or_empty (alias_asname a)
  else split_dot_head (alias_name a).

Definition import_stmt_str (a : alias) : string :=
  "import " +:+ alias_name a +:+ as_clause a.

(** Lines 38-43. *)
Definition from_module (module : option string) : string :=
  if truthy module then str_or_empty module else "".

Definition from_name (a : alias) : string :=
  if truthy (alias_asname a) then str_or_empty (alias_asname a) else alias_name a.

Definition from_stmt_str (module : option string) (a : alias) : string :=
  "from " +:+ from_module module +:+ " import " +:+ alias_name a +:+ as_clause a.

(** The body of the loop of line 27 for one node. *)
Definition scan_node (t : tables) (n : node) : tables :=
  match n with
  | Import lineno names =>
      foldl (λ t a, record_import lineno (import_name a) (import_stmt_str a) t) t names
  | ImportFrom lineno module names =>
      foldl (λ t a, record_import lineno (from_name a) (from_stmt_str module a) t) t names
  | _ => t
  end.

(** Lines 27-46. *)
Definition scan_imports (tree : node) : tables :=
  foldl scan_node empty_tables (walk tree).

(** [RecursionError]: the interpreter refuses a further frame. *)
Definition recursion_error : exn :=
  Exn RecursionError "maximum recursion depth exceeded".

(** The loop of [generic_visit]: the child nodes are visited in turn by [v],
    the set [used] threaded through; the first exception ends the loop. *)
Fixpoint visit_children (v : node → gset string → result (gset string))
    (children : list node) (used : gset string) : result (gset string) :=
  match children with
  | [] => Ok used
  | c :: rest => used' ← v c used; visit_children v rest used'
  end.

(** [ImportVisitor().visit(node)] with [frames] Python frames left and the
    set [used] threaded through.  Every Python-level call takes a frame:
    [NodeVisitor.visit], the method it dispatches to ([visit_Name],
    [visit_Attribute], or [generic_visit]), the [generic_visit] that
    [visit_Attribute] calls, and the generator [iter_fields] while it runs;
    a call without a frame left raises [RecursionError].  [visit_Name] adds
    the identifier and does not descend; [generic_visit] visits the child
    nodes with the frames left below it. *)
Fixpoint visit (frames : nat) (n : node) (used : gset string)
    : result (gset string) :=
  match frames with
  | S (S below) =>
      match n with
      | Name id _ => Ok ({[id]} ∪ used)
      | Attribute _ _ _ =>
          match below with
          | S (S _ as below') => visit_children (visit below') (iter_child_nodes n) used
          | _ => Raise recursion_error
          end
      | _ =>
          match below with
          | S _ => visit_children (visit below) (iter_child_nodes n) used
          | O => Raise recursion_error
          end
      end
  | _ => Raise recursion_error
  end.

(** Lines 60-65. *)
Fixpoint unused_loop (filename : string) (aliases : gmap string (Z * string))
    (names : list string) (unused_results : list record) : result (list record) :=
  match names with
  | [] => Ok unused_results
  | name :: rest =>
      match aliases !! name with
      | Some (lineno, stmt) =>
          unused_loop filename aliases rest
            (unused_results ++ [unused_record filename lineno stmt])
      | None => Raise (Exn KeyError name)
      end
  end.

(** Lines 67-72. *)
Fixpoint duplicate_loop (filename : string) (items : list (string * list Z))
    : list record :=
  match items with
  | [] => []
  | (stmt, lines) :: rest =>
      if (1 <? length lines)%nat
      then duplicate_record filename lines stmt :: duplicate_loop filename rest
      else duplicate_loop filename rest
  end.

(** Lines 23-74: the analysis of a parsed file. *)
Definition analyse_tree (frames : nat) (o : set_order) (filename : string)
    (tree : node) : result (list record * list record) :=
  let t := scan_imports tree in
  used ← visit frames tree ∅;
  let unused_imports := imports t ∖ used in
  unused_results ← unused_loop filename (import_aliases t) (iter_set o unused_imports) [];
  let duplicate_results := duplicate_loop filename (import_statements t) in
  mret (unused_results, duplicate_results).

(** Lines 14-17. *)
Definition read_and_parse (w : world) (filename : string) : result node :=
  source ← read_text w filename;
  ast_parse w source filename.

Definition find_unused_and_duplicate_imports_in_file (w : world) (o : set_order)
    (filename : string) : result (list record * list record) :=
  match read_and_parse w filename with
  | Ok tree => analyse_tree (frames_left w) o filename tree
  | Raise e =>
      if issubclass (exn_cls e) FileNotFoundError || issubclass (exn_cls e) PermissionError
      then Ok ([error_record filename (exn_str e)], [])
      else if issubclass (exn_cls e) SyntaxError
      then Ok ([error_record filename ("SyntaxError: " +:+ exn_str e)], [])
      else Raise e
  end.

(** ** The batch runner *)

(** Lines 77-83. *)
Definition find_python_files_in_directory (w : world) (directory : string)
    : list string :=
  concat (map (λ '(root, _, files),
                 map (os_path_join w root)
                     (List.filter (λ file, endswith file ".py") files))
              (os_walk w directory)).

(** The accumulators of lines 96-98. *)
Record accs := Accs {
  all_unused : list record;
  all_duplicates : list record;
  all_errors : list record
}.

Definition empty_accs : accs := Accs [] [] [].

(** Lines 106-112 (and 114-119): analyse one file and extend the
    accumulators. *)
Definition analyse_file (w : world) (o : set_order) (file : string) (acc : accs)
    : result accs :=
  '(unused, duplicates) ← find_unused_and_duplicate_imports_in_file w o file;
  let file_errors := List.filter (has_key "error") unused in
  let file_unused := List.filter (has_key "import_statement") unused in
  mret (Accs (all_unused acc ++ file_unused)
             (all_duplicates acc ++ duplicates)
             (all_errors acc ++ file_errors)).

(** The loop of line 105. *)
Fixpoint analyse_files (w : world) (o : set_order) (files : list string) (acc : accs)
    : result accs :=
  match files with
  | [] => Ok acc
  | file :: rest => acc' ← analyse_file w o file acc; analyse_files w o rest acc'
  end.

(** Lines 100-124: either a message on stderr followed by [sys.exit(1)], or
    the accumulators (unless a call raised). *)
Inductive gathered :=
| Fatal (msg : string)
| Gathered (r : result accs).

Definition gather (w : world) (o : set_order) (path : string) : gathered :=
  if os_path_isdir w path then
    let files := find_python_files_in_directory w path in
    match files with
    | [] => Fatal ("No Python files found in directory: " +:+ path)
    | _ => Gathered (analyse_files w o files empty_accs)
    end
  else if os_path_isfile w path then
    Gathered (analyse_file w o path empty_accs)
  else Fatal ("Error: '" +:+ path +:+ "' is not a valid file or directory.").

(** *** Sorting *)

(** [<] on the sort keys: [str], [(str, int)] and [(str, list of int)].
    Strings are compared byte by byte, which on UTF-8 text is the order of
    the code points. *)
Definition str_lt (a b : string) : bool := String.ltb a b.

Fixpoint lines_lt (a b : list Z) : bool :=
  match a, b with
  | _, [] => false
  | [], _ :: _ => true
  | x :: a', y :: b' => (x <? y) || ((x =? y) && lines_lt a' b')
  end.

Definition file_line_lt (a b : string * Z) : bool :=
  str_lt a.1 b.1 || (String.eqb a.1 b.1 && (a.2 <? b.2)).

Definition file_lines_lt (a b : string * list Z) : bool :=
  str_lt a.1 b.1 || (String.eqb a.1 b.1 && lines_lt a.2 b.2).

(** A stable sort: [x], which stood before the elements of [l], goes before
    the first element that is not smaller than it. *)
Fixpoint insert_stable {K A} (lt : K → K → bool) (x : K * A) (l : list (K * A))
    : list (K * A) :=
  match l with
  | [] => [x]
  | y :: l' => if lt y.1 x.1 then y :: insert_stable lt x l' else x :: y :: l'
  end.

Definition stable_sort {K A} (lt : K → K → bool) (l : list (K * A)) : list (K * A) :=
  foldr (insert_stable lt) [] l.

(** [sorted(l, key=key)]: the keys are computed first. *)
Definition sorted {K} (lt : K → K → bool) (key : record → result K) (l : list record)
    : result (list record) :=
  keyed ← mapM (λ r, k ← key r; mret (k, r)) l;
  mret (map snd (stable_sort lt keyed)).

Definition unused_key (r : record) : result (string * Z) :=
  f ← get_str r "file"; l ← get_int r "line"; mret (f, l).

Definition duplicate_key (r : record) : result (string * list Z) :=
  f ← get_str r "file"; l ← get_lines r "lines"; mret (f, l).

Definition error_key (r : record) : result string := get_str r "file".

(** Lines 126-128. *)
Definition sort_all (acc : accs) : result accs :=
  unused_sorted ← sorted file_line_lt unused_key (all_unused acc);
  duplicates_sorted ← sorted file_lines_lt duplicate_key (all_duplicates acc);
  errors_sorted ← sorted str_lt error_key (all_errors acc);
  mret (Accs unused_sorted duplicates_sorted errors_sorted).

(** *** Output *)

(** [sep.join(l)]. *)
Fixpoint join (sep : string) (l : list string) : string :=
  match l with
  | [] => ""
  | [s] => s
  | s :: l' => s +:+ sep +:+ join sep l'
  end.

(** The arguments of the [print] calls of lines 138-156, in order. *)
Definition unused_line (res : record) : result string :=
  f ← get_str res "file"; l ← get_int res "line"; s ← get_str res "import_statement";
  mret (f +:+ ": Line " +:+ pretty l +:+ ": " +:+ s).

Definition duplicate_line (res : record) : result string :=
  f ← get_str res "file"; ls ← get_lines res "lines"; s ← get_str res "import_statement";
  mret (f +:+ ": Lines " +:+ join ", " (map pretty ls) +:+ ": " +:+ s).

Definition error_line (err : record) : result string :=
  f ← get_str err "file"; e ← get_str err "error";
  mret (f +:+ ": " +:+ e).

Definition text_prints (r : accs) : list (result string) :=
  (match all_unused r with
   | [] => [Ok "No unused imports found."]
   | _ => Ok "Unused imports found:" :: map unused_line (all_unused r)
   end) ++
  (match all_duplicates r with
   | [] => [Ok (nl +:+ "No duplicate imports found.")]
   | _ => Ok (nl +:+ "Duplicate imports found:") :: map duplicate_line (all_duplicates r)
   end) ++
  (match all_errors r with
   | [] => []
   | _ => Ok (nl +:+ "Errors:") :: map error_line (all_errors r)
   end).

(** Run the [print] calls up to the first one that raises: computing its
    argument raises, or the encoder of the stream rejects the text. *)
Fixpoint run_prints (reject : string → option exn) (ps : list (result string))
    : list string * option exn :=
  match ps with
  | [] => ([], None)
  | Ok s :: ps' =>
      match reject s with
      | Some e => ([], Some e)
      | None => let '(out, r) := run_prints reject ps' in (s :: out, r)
      end
  | Raise e :: _ => ([], Some e)
  end.

(** How the process ends: an exit code, or an exception nobody caught. *)
Inductive termination :=
| Exit (code : Z)
| Traceback (e : exn).

Record process := Process {
  stdout : list string;
  stderr : list string;
  status : termination
}.

(** The [print] calls of lines 130-156: the dump in structured mode, the
    lines of the report otherwise. *)
Definition report_prints (w : world) (r : accs) (json : bool) : list (result string) :=
  if json
  then [Ok (json_dumps w (all_unused r) (all_duplicates r) (all_errors r))]
  else text_prints r.

(** Lines 86-156, after [parse_args]: [path] and the [--json] flag.  The text
    of a traceback is not modelled; the two messages on stderr go to a stream
    whose encoder replaces what it cannot encode. *)
Definition main (w : world) (o : set_order) (path : string) (json : bool) : process :=
  match gather w o path with
  | Fatal msg => Process [] [msg] (Exit 1)
  | Gathered (Raise e) => Process [] [] (Traceback e)
  | Gathered (Ok acc) =>
      match sort_all acc with
      | Raise e => Process [] [] (Traceback e)
      | Ok r =>
          let '(out, raised) := run_prints (stdout_error w) (report_prints w r json) in
          Process out [] (match raised with None => Exit 0 | Some e => Traceback e end)
      end
  end.

(** ** Reference descriptions of the traversals *)

(** An import binding: bound name, line, canonical statement text. *)
Record binding := Binding {
  bound_name : string;
  binding_line : Z;
  statement_text : string
}.

(** The bindings one node introduces, one per target name. *)
Definition bindings_of_node (n : node) : list binding :=
  match n with
  | Import lineno names =>
      map (λ a, Binding (import_name a) lineno (import_stmt_str a)) names
  | ImportFrom lineno module names =>
      map (λ a, Binding (from_name a) lineno (from_stmt_str module a)) names
  | _ => []
  end.

Definition bindings (l : list node) : list binding :=
  concat (map bindings_of_node l).

(** The identifiers of the name-reference nodes among [l]. *)
Definition name_ids (l : list node) : list string :=
  concat (map (λ n, match n with Name id _ => [id] | _ => [] end) l).

(** The last binding of [name] in a sequence of bindings. *)
Fixpoint last_binding (name : string) (bs : list binding) : option (Z * string) :=
  match bs with
  | [] => None
  | b :: bs' =>
      match last_binding name bs' with
      | Some x => Some x
      | None =>
          if String.eqb (bound_name b) name
          then Some (binding_line b, statement_text b) else None
      end
  end.

(** The lines of the bindings whose statement text is [stmt], in sequence. *)
Definition lines_of (stmt : string) (bs : list binding) : list Z :=
  map binding_line (List.filter (λ b, String.eqb (statement_text b) stmt) bs).

(** Lookup in the [import_statements] dict. *)
Fixpoint stmt_lines (stmt : string) (d : list (string * list Z)) : option (list Z) :=
  match d with
  | [] => None
  | (k, v) :: d' => if String.eqb k stmt then Some v else stmt_lines stmt d'
  end.

Definition apply_binding (t : tables) (b : binding) : tables :=
  record_import (binding_line b) (bound_name b) (statement_text b) t.

Definition total_size (q : list node) : nat := list_sum (map size q).

Definition children_of (q : list node) : list node :=
  concat (map iter_child_nodes q).

Definition all_nodes (q : list node) : list node := concat (map pre_order q).

(** The nodes of a tree in the order of [ast.walk], described by levels. *)
Definition breadth_first (tree : node) : list node :=
  level_order (height tree) [tree].

(** The usage set of a tree: [used] and the identifiers of the [Name] nodes
    of [n]. *)
Fixpoint collect_names (n : node) (used : gset string) : gset string :=
  match n with
  | Name id _ => {[id]} ∪ used
  | Attribute v _ _ => collect_names v used
  | Other cs => fold_left (λ u c, collect_names c u) cs used
  | Import _ _ | ImportFrom _ _ _ | AliasNode _ | Ctx _ => used
  end.

(** The finding emitted for an unused [name] (lines 62-65). *)
Definition finding_of (filename : string) (aliases : gmap string (Z * string))
    (name : string) : record :=
  match aliases !! name with
  | Some (lineno, stmt) => unused_record filename lineno stmt
  | None => []
  end.

(** The names the loop of line 61 goes through. *)
Definition unused_names (o : set_order) (tree : node) : list string :=
  iter_set o (imports (scan_imports tree) ∖ collect_names tree ∅).

Definition duplicate_of (filename : string) (item : string * list Z) : record :=
  duplicate_record filename item.2 item.1.

(** Every import of the module is one of its top-level statements. *)
Definition top_level_only (tree : node) : Prop :=
  ∃ cs, tree = Other cs
        ∧ Forall (λ c, bindings (all_nodes (iter_child_nodes c)) = []) cs.

(** The exception classes the analyzer turns into an error record. *)
Definition caught (c : exn_class) : bool :=
  issubclass c FileNotFoundError || issubclass c PermissionError
  || issubclass c SyntaxError.

(** ** Sample files *)

(** Two enumerations of a set: the order of [elements] and its reverse. *)
Definition forward_order : set_order :=
  SetOrder elements (λ s, reflexivity (elements s)).

Definition backward_order : set_order :=
  SetOrder (λ s, reverse (elements s)) (λ s, reverse_Permutation (elements s)).

(** What a path of the sample file system holds. *)
Inductive file_state :=
| Unreadable (e : exn)
| Unparsable (e : exn)
| Parsed (tree : node).

Fixpoint file_lookup (p : string) (fs : list (string * file_state)) : option file_state :=
  match fs with
  | [] => None
  | (q, st) :: fs' => if String.eqb q p then Some st else file_lookup p fs'
  end.

(** A file system with one directory [dir] holding the files [fs] (by base
    name); the text of a readable file is represented by its path.  The
    interpreter has its default limit of 1000 frames, three of them in use
    (the module, [main] and the analyzer), and the output stream accepts
    every text. *)
Definition sample_world (dir : string) (fs : list (string * file_state)) : world :=
  let paths := map (λ '(name, st), (dir +:+ "/" +:+ name, st)) fs in
  World
    (λ p, match file_lookup p paths with
          | Some (Unreadable e) => Raise e
          | Some _ => Ok p
          | None => Raise (Exn FileNotFoundError p)
          end)
    (λ source filename,
       match file_lookup filename paths with
       | Some (Parsed tree) => Ok tree
       | Some (Unparsable e) => Raise e
       | _ => Raise (Exn SyntaxError filename)
       end)
    (λ p, String.eqb p dir)
    (λ p, match file_lookup p paths with Some _ => true | None => false end)
    (λ d, if String.eqb d dir then [(dir, [], map fst fs)] else [])
    (λ root file, root +:+ "/" +:+ file)
    (λ _ _ _, "{}")
    997
    (λ _, None).

Definition alias_json : alias := Alias "json" None.

(** [import json] on line 1 and again on line 2. *)
Definition json_twice : node :=
  Other [Import 1 [alias_json]; Import 2 [alias_json]].

(** [def f():] on line 1 with [import json] as its body on line 2, then
    [import json] at top level on line 3.  The function node has its
    [arguments] node and its body as children. *)
Definition nested_json : node :=
  Other [Other [Other []; Import 2 [alias_json]]; Import 3 [alias_json]].


(** [import os, sys] on line 1. *)
Definition os_sys : node :=
  Other [Import 1 [Alias "os" None; Alias "sys" None]].

(** The three shapes of result dict. *)
Definition is_unused_record (r : record) : Prop :=
  ∃ filename lineno stmt, r = unused_record filename lineno stmt.

Definition is_duplicate_record (r : record) : Prop :=
  ∃ filename lines stmt, r = duplicate_record filename lines stmt.

Definition is_error_record (r : record) : Prop :=
  ∃ filename msg, r = error_record filename msg.

(** A file that is not valid UTF-8: reading it raises [UnicodeDecodeError]. *)
Definition decode_error : exn :=
  Exn UnicodeDecodeError
      "'utf-8' codec can't decode byte 0xe9 in position 10: invalid continuation byte".

Definition latin1_world : world :=
  sample_world "proj" [("latin1.py", Unreadable decode_error)].

(** The message an error record carries for a caught exception. *)
Definition error_message (e : exn) : string :=
  if issubclass (exn_cls e) FileNotFoundError || issubclass (exn_cls e) PermissionError
  then exn_str e
  else "SyntaxError: " +:+ exn_str e.

(** ** Orders and per-run descriptions *)

(** [lt] is a strict total order. *)
Record strict_total {K : Type} (lt : K → K → bool) : Prop := StrictTotal {
  lt_irrefl : ∀ a, lt a a = false;
  lt_trans : ∀ a b c, lt a b = true → lt b c = true → lt a c = true;
  lt_total : ∀ a b, lt a b = false → lt b a = false → a = b
}.

(** On keyed elements: [x] may stand before [y]; [x] must stand before [y]. *)
Definition not_after {K A : Type} (lt : K → K → bool) (x y : K * A) : Prop :=
  lt y.1 x.1 = false.

Definition before {K A : Type} (lt : K → K → bool) (x y : K * A) : Prop :=
  lt x.1 y.1 = true.

(** The key of a record, [dflt] where computing it raises. *)
Definition key_or {K : Type} (key : record → result K) (dflt : K) (r : record) : K :=
  match key r with Ok k => k | Raise _ => dflt end.

(** The files a run analyses. *)
Definition candidates (w : world) (path : string) : list string :=
  if os_path_isdir w path then find_python_files_in_directory w path
  else if os_path_isfile w path then [path] else [].

(** The first exception among [files] that leaves the analyzer: a read or
    parse failure it does not catch, or one raised by the visitor. *)
Fixpoint first_uncaught (w : world) (files : list string) : option exn :=
  match files with
  | [] => None
  | file :: rest =>
      match read_and_parse w file with
      | Raise e => if caught (exn_cls e) then first_uncaught w rest else Some e
      | Ok tree =>
          match visit (frames_left w) tree ∅ with
          | Raise e => Some e
          | Ok _ => first_uncaught w rest
          end
      end
  end.

(** What one file adds to each accumulator. *)
Definition file_unused (w : world) (o : set_order) (file : string) : list record :=
  match read_and_parse w file with
  | Ok tree =>
      map (finding_of file (import_aliases (scan_imports tree))) (unused_names o tree)
  | Raise _ => []
  end.

Definition file_duplicates (w : world) (file : string) : list record :=
  match read_and_parse w file with
  | Ok tree => duplicate_loop file (import_statements (scan_imports tree))
  | Raise _ => []
  end.

Definition file_errors (w : world) (file : string) : list record :=
  match read_and_parse w file with
  | Ok _ => []
  | Raise e => [error_record file (error_message e)]
  end.

(** [sorted(l, key=key)] when no key raises. *)
Definition sorted_or {K : Type} (lt : K → K → bool) (key : record → result K)
    (dflt : K) (l : list record) : list record :=
  map snd (stable_sort lt (map (λ r, (key_or key dflt r, r)) l)).

Definition sort_unused : list record → list record :=
  sorted_or file_line_lt unused_key ("", 0).

Definition sort_duplicates : list record → list record :=
  sorted_or file_lines_lt duplicate_key ("", []).

Definition sort_errors : list record → list record :=
  sorted_or str_lt error_key "".

(** Accumulators holding records of the expected shapes. *)
Definition well_formed (acc : accs) : Prop :=
  Forall is_unused_record (all_unused acc)
  ∧ Forall is_duplicate_record (all_duplicates acc)
  ∧ Forall is_error_record (all_errors acc).

(** The exit status of the process: an exception nobody catches ends the
    interpreter with status 1. *)
Definition exit_code (t : termination) : Z :=
  match t with
  | Exit code => code
  | Traceback _ => 1
  end.

(** The two whole-run failures: a directory without matching files, a path
    that is neither a directory nor a file. *)
Definition no_input (w : world) (path : string) : bool :=
  if os_path_isdir w path
  then match find_python_files_in_directory w path with [] => true | _ => false end
  else negb (os_path_isfile w path).

(** A directory with the single file [a.py] holding [import os, sys]. *)
Definition os_sys_world : world := sample_world "proj" [("a.py", Parsed os_sys)].

(** A directory with a file that does not parse and a clean one. *)
Definition syntax_error : exn := Exn SyntaxError "invalid syntax (bad.py, line 1)".

Definition mixed_world : world :=
  sample_world "proj" [("bad.py", Unparsable syntax_error); ("a.py", Parsed json_twice)].

(** ** Bound names, in the words of the specification *)

(** The characters of a string. *)
Fixpoint chars (s : string) : list ascii :=
  match s with
  | EmptyString => []
  | String c r => c :: chars r
  end.

(** [seg] is the first segment of the dotted path [s]: it has no dot, and
    [s] is [seg] alone or [seg] followed by a dot and more. *)
Definition first_segment (seg s : string) : Prop :=
  (dot ∉ chars seg) ∧ (s = seg ∨ ∃ r, s = seg +:+ String dot r).

(** The names an import statement binds: for each target of a plain import
    the alias if there is one, else the first segment of the module path;
    for each target of a from-import the alias if there is one, else the
    imported name. *)
Inductive imports_name : node → string → Prop :=
| plain_alias lineno names a asname :
    a ∈ names → alias_asname a = Some asname →
    imports_name (Import lineno names) asname
| plain_first_segment lineno names a seg :
    a ∈ names → alias_asname a = None → first_segment seg (alias_name a) →
    imports_name (Import lineno names) seg
| from_alias lineno module names a asname :
    a ∈ names → alias_asname a = Some asname →
    imports_name (ImportFrom lineno module names) asname
| from_plain lineno module names a :
    a ∈ names → alias_asname a = None →
    imports_name (ImportFrom lineno module names) (alias_name a).

(** The aliases of a node are as the parser makes them: none is empty. *)
Definition aliases_non_empty (n : node) : Prop :=
  match n with
  | Import _ names | ImportFrom _ _ names =>
      Forall (λ a, alias_asname a ≠ Some "") names
  | _ => True
  end.

(** The nodes [k] levels below the nodes [q]. *)
Fixpoint nth_level (k : nat) (q : list node) : list node :=
  match k with
  | O => q
  | S k' => nth_level k' (children_of q)
  end.

(** The frames that suffice for the visitor on a tree. *)
Fixpoint frames_needed (n : node) : nat :=
  match n with
  | Name _ _ => 2
  | Attribute v _ _ => 3 + Nat.max (frames_needed v) 3
  | Import _ names | ImportFrom _ _ names =>
      2 + match names with [] => 1 | _ => 3 end
  | AliasNode _ | Ctx _ => 3
  | Other cs => 2 + Nat.max 1 (foldr Nat.max 0%nat (map frames_needed cs))
  end.

(** The texts of a list of [print] calls none of whose arguments raises. *)
Definition printed (ps : list (result string)) : list string :=
  map (λ p, match p with Ok s => s | Raise _ => "" end) ps.

(** What a run prints after gathering [acc], on a stream that rejects
    nothing. *)
Definition report_texts (w : world) (acc : accs) (json : bool) : list string :=
  printed (report_prints w
             (Accs (sort_unused (all_unused acc))
                   (sort_duplicates (all_duplicates acc))
                   (sort_errors (all_errors acc)))
             json).

(** ** Deeply nested files *)

(** [base.b.b. ... .b] with [depth] attribute accesses. *)
Fixpoint attribute_chain (depth : nat) (base : node) : node :=
  match depth with
  | O => base
  | S d => Attribute (attribute_chain d base) "b" Load
  end.

(** [import json] on line 1 and, on line 2, the assignment of an attribute
    chain of 400 accesses to [x]. *)
Definition deep_tree : node :=
  Other [Import 1 [alias_json];
         Other [Name "x" Store; attribute_chain 400 (Name "a" Load)]].

Definition deep_world : world := sample_world "proj" [("deep.py", Parsed deep_tree)].

(** A directory with a file that is not valid UTF-8 followed by a clean
    one. *)
Definition latin1_then_clean_world : world :=
  sample_world "proj" [("latin1.py", Unreadable decode_error); ("a.py", Parsed json_twice)].

(** ** Further descriptions *)

(** The elements of [l] in the order of their first occurrence. *)
Fixpoint first_occurrences (l : list string) : list string :=
  match l with
  | [] => []
  | x :: l' => x :: List.filter (λ y, negb (String.eqb y x)) (first_occurrences l')
  end.

Definition space : ascii := " "%char.


(** [a] may stand before [b] in a list sorted by [key]: the key of [b] is not
    smaller than the key of [a]. *)
Definition key_le {K : Type} (lt : K → K → bool) (key : record → result K)
    (a b : record) : Prop :=
  match key a, key b with
  | Ok ka, Ok kb => lt kb ka = false
  | _, _ => False
  end.

(** Whether reading and parsing a file fails. *)
Definition fails (w : world) (file : string) : bool :=
  match read_and_parse w file with
  | Ok _ => false
  | Raise _ => true
  end.

(** A directory with a clean file followed by one that is not valid UTF-8. *)
Definition clean_then_latin1_world : world :=
  sample_world "proj" [("a.py", Parsed json_twice); ("latin1.py", Unreadable decode_error)].

Global Instance exn_class_eq_dec : EqDecision exn_class.
Proof. solve_decision. Defined.

Global Instance exn_eq_dec : EqDecision exn.
Proof. solve_decision. Defined.

Global Instance result_eq_dec {A : Type} `{EqDecision A} : EqDecision (result A).
Proof. solve_decision. Defined.

(** The records of [l] whose sort key is [k], in the order of [l]. *)
Definition with_key {K : Type} `{EqDecision K} (key : record → result K) (k : K)
    (l : list record) : list record :=
  List.filter (λ r, bool_decide (key r = Ok k)) l.

(** * Properties *)

(** ** Trees and traversals *)

Lemma node_ind' (P : node → Prop) :
  (∀ lineno names, P (Import lineno names)) →
  (∀ lineno module names, P (ImportFrom lineno module names)) →
  (∀ id c, P (Name id c)) →
  (∀ v attr c, P v → P (Attribute v attr c)) →
  (∀ a, P (AliasNode a)) →
  (∀ c, P (Ctx c)) →
  (∀ cs, Forall P cs → P (Other cs)) →
  ∀ n, P n.
Proof.
  intros HI HF HN HA HAl HC HO.
  fix IH 1. intros [l ns|l m ns|id c|v a c|a|c|cs].
  - apply HI.
  - apply HF.
  - apply HN.
  - apply HA, IH.
  - apply HAl.
  - apply HC.
  - apply HO. induction cs as [|c cs IHcs]; constructor; [apply IH | exact IHcs].
Qed.

Lemma total_size_alias names : total_size (map AliasNode names) = length names.
Proof. unfold total_size. induction names; simpl; auto. Qed.

Lemma size_children n : size n = S (total_size (iter_child_nodes n)).
Proof.
  destruct n; simpl; rewrite ?total_size_alias; try reflexivity.
  unfold total_size; simpl. lia.
Qed.

Lemma total_size_app q r : total_size (q ++ r) = (total_size q + total_size r)%nat.
Proof. unfold total_size. by rewrite map_app, list_sum_app. Qed.

Lemma total_size_children q :
  total_size q = (length q + total_size (children_of q))%nat.
Proof.
  induction q as [|n q IH]; [reflexivity|].
  unfold children_of in *. simpl. rewrite total_size_app.
  change (total_size (n :: q)) with (size n + total_size q)%nat.
  rewrite size_children, IH. lia.
Qed.

(** Popping a whole prefix of the deque yields it and leaves its children
    appended on the right. *)
Lemma walk_fuel_prefix q : ∀ fuel r,
  walk_fuel (length q + fuel) (q ++ r) = q ++ walk_fuel fuel (r ++ children_of q).
Proof.
  induction q as [|n q IH]; intros fuel r.
  - simpl. unfold children_of. simpl. by rewrite app_nil_r.
  - simpl. f_equal. rewrite <- app_assoc, IH. unfold children_of. simpl.
    by rewrite <- app_assoc.
Qed.

Lemma height_pos n : (0 < height n)%nat.
Proof. destruct n; simpl; lia. Qed.

Lemma height_alias names d :
  (1 ≤ d)%nat → Forall (λ c, (height c ≤ d)%nat) (map AliasNode names).
Proof. intros Hd. induction names; constructor; auto. Qed.

Lemma foldr_max_le (l : list nat) d :
  (foldr Nat.max 0 l ≤ d)%nat → Forall (λ x, (x ≤ d)%nat) l.
Proof. induction l as [|x l IH]; simpl; intros H; constructor; [lia | apply IH; lia]. Qed.

Lemma height_children n d :
  (height n ≤ S d)%nat → Forall (λ c, (height c ≤ d)%nat) (iter_child_nodes n).
Proof.
  destruct n; simpl; intros H.
  - apply height_alias; lia.
  - apply height_alias; lia.
  - repeat constructor; simpl; lia.
  - repeat constructor; simpl; lia.
  - constructor.
  - constructor.
  - apply (proj1 (Forall_fmap height (λ x, (x ≤ d)%nat) children)).
    apply foldr_max_le. exact (le_S_n _ _ H).
Qed.

Lemma height_children_of q d :
  Forall (λ n, (height n ≤ S d)%nat) q → Forall (λ c, (height c ≤ d)%nat) (children_of q).
Proof.
  unfold children_of. induction 1 as [|n q Hn _ IH]; simpl; [constructor|].
  apply Forall_app; split; [by apply height_children | exact IH].
Qed.

Lemma height_zero q : Forall (λ n, (height n ≤ 0)%nat) q → q = [].
Proof.
  destruct q as [|n q]; [done|]. intros H. apply Forall_cons in H as [H _].
  pose proof (height_pos n). lia.
Qed.

(** The deque of [ast.walk] realises the level-by-level order. *)
Lemma walk_fuel_level_order d : ∀ q,
  Forall (λ n, (height n ≤ d)%nat) q →
  walk_fuel (total_size q) q = level_order d q.
Proof.
  induction d as [|d IH]; intros q Hq.
  - apply height_zero in Hq as ->. reflexivity.
  - rewrite total_size_children.
    pose proof (walk_fuel_prefix q (total_size (children_of q)) []) as Hw.
    rewrite app_nil_r in Hw. simpl in Hw. rewrite Hw. simpl. f_equal.
    apply IH. by apply height_children_of.
Qed.

Lemma walk_breadth_first tree : walk tree = breadth_first tree.
Proof.
  unfold walk, breadth_first.
  replace (size tree) with (total_size [tree]) by (unfold total_size; simpl; lia).
  apply walk_fuel_level_order. repeat constructor.
Qed.

Lemma all_nodes_alias names : all_nodes (map AliasNode names) = map AliasNode names.
Proof. unfold all_nodes. induction names; simpl; [done|]. by f_equal. Qed.

Lemma pre_order_children n : pre_order n = n :: all_nodes (iter_child_nodes n).
Proof.
  destruct n; simpl; rewrite ?all_nodes_alias; reflexivity.
Qed.

Lemma all_nodes_app q r : all_nodes (q ++ r) = all_nodes q ++ all_nodes r.
Proof. unfold all_nodes. by rewrite map_app, concat_app. Qed.

Lemma all_nodes_children q : all_nodes q ≡ₚ q ++ all_nodes (children_of q).
Proof.
  induction q as [|n q IH]; [reflexivity|].
  change (all_nodes (n :: q)) with (pre_order n ++ all_nodes q).
  change (children_of (n :: q)) with (iter_child_nodes n ++ children_of q).
  rewrite pre_order_children, all_nodes_app, IH. simpl. constructor.
  rewrite !app_assoc. apply Permutation_app_tail. apply Permutation_app_comm.
Qed.

Lemma level_order_all_nodes d : ∀ q,
  Forall (λ n, (height n ≤ d)%nat) q → level_order d q ≡ₚ all_nodes q.
Proof.
  induction d as [|d IH]; intros q Hq.
  - apply height_zero in Hq as ->. reflexivity.
  - simpl. rewrite all_nodes_children. apply Permutation_app_head.
    apply IH. by apply height_children_of.
Qed.

(** [ast.walk] reaches exactly the nodes of the tree. *)
Lemma walk_pre_order tree : walk tree ≡ₚ pre_order tree.
Proof.
  rewrite walk_breadth_first. unfold breadth_first.
  rewrite level_order_all_nodes by (repeat constructor).
  unfold all_nodes. simpl. by rewrite app_nil_r.
Qed.

(** ** The tables built by the import loop *)

Lemma scan_node_bindings t n :
  scan_node t n = foldl apply_binding t (bindings_of_node n).
Proof.
  destruct n as [l names|l m names| | | | |]; simpl; try reflexivity.
  - revert t. induction names as [|a names IH]; intros t; simpl; [done|]. apply IH.
  - revert t. induction names as [|a names IH]; intros t; simpl; [done|]. apply IH.
Qed.

Lemma foldl_scan_bindings l : ∀ t,
  foldl scan_node t l = foldl apply_binding t (bindings l).
Proof.
  unfold bindings. induction l as [|n l IH]; intros t; simpl; [done|].
  by rewrite foldl_app, IH, scan_node_bindings.
Qed.

Lemma scan_imports_bindings tree :
  scan_imports tree = foldl apply_binding empty_tables (bindings (walk tree)).
Proof. apply foldl_scan_bindings. Qed.

Lemma last_binding_snoc name bs b :
  last_binding name (bs ++ [b]) =
    if String.eqb (bound_name b) name
    then Some (binding_line b, statement_text b) else last_binding name bs.
Proof.
  induction bs as [|b' bs IH]; simpl.
  - by destruct (String.eqb (bound_name b) name).
  - rewrite IH. destruct (String.eqb (bound_name b) name); [done|].
    reflexivity.
Qed.

Lemma lines_of_snoc stmt bs b :
  lines_of stmt (bs ++ [b]) =
    lines_of stmt bs ++
    (if String.eqb (statement_text b) stmt then [binding_line b] else []).
Proof.
  unfold lines_of. rewrite List.filter_app, map_app. simpl.
  by destruct (String.eqb (statement_text b) stmt).
Qed.

Lemma stmt_lines_append_eq stmt lineno d :
  stmt_lines stmt (append_line stmt lineno d) =
    Some (default [] (stmt_lines stmt d) ++ [lineno]).
Proof.
  induction d as [|[k v] d IH]; simpl.
  - by rewrite String.eqb_refl.
  - destruct (String.eqb k stmt) eqn:E; simpl; rewrite E; [done | exact IH].
Qed.

Lemma stmt_lines_append_ne stmt stmt' lineno d :
  stmt' ≠ stmt →
  stmt_lines stmt' (append_line stmt lineno d) = stmt_lines stmt' d.
Proof.
  intros Hne. induction d as [|[k v] d IH]; simpl.
  - destruct (String.eqb_spec stmt stmt'); [congruence | done].
  - destruct (String.eqb_spec k stmt) as [->|Hk]; simpl.
    + destruct (String.eqb_spec stmt stmt'); [congruence | done].
    + by rewrite IH.
Qed.

Lemma append_line_keys stmt lineno d k :
  k ∈ map fst (append_line stmt lineno d) ↔ k = stmt ∨ k ∈ map fst d.
Proof.
  induction d as [|[k' v] d IH]; simpl.
  - rewrite list_elem_of_singleton, elem_of_nil. tauto.
  - destruct (String.eqb_spec k' stmt) as [->|Hk]; simpl.
    + rewrite !elem_of_cons. tauto.
    + rewrite !elem_of_cons, IH. tauto.
Qed.

Lemma append_line_NoDup stmt lineno d :
  NoDup (map fst d) → NoDup (map fst (append_line stmt lineno d)).
Proof.
  induction d as [|[k v] d IH]; simpl; intros Hd.
  - apply NoDup_singleton.
  - apply NoDup_cons in Hd as [Hk Hd].
    destruct (String.eqb_spec k stmt) as [->|Hne]; simpl.
    + by apply NoDup_cons.
    + apply NoDup_cons; split; [|by apply IH].
      rewrite append_line_keys. intros [?|?]; congruence.
Qed.

Lemma stmt_lines_elem k v d :
  NoDup (map fst d) → (k, v) ∈ d → stmt_lines k d = Some v.
Proof.
  induction d as [|[k' v'] d IH]; simpl; intros Hd Hin.
  - by apply elem_of_nil in Hin.
  - apply NoDup_cons in Hd as [Hk Hd].
    apply elem_of_cons in Hin as [Heq|Hin].
    + injection Heq as -> ->. by rewrite String.eqb_refl.
    + destruct (String.eqb_spec k' k) as [->|Hne]; [|by apply IH].
      exfalso. apply Hk. apply list_elem_of_fmap. by exists (k, v).
Qed.

Lemma stmt_lines_Some k v d : stmt_lines k d = Some v → (k, v) ∈ d.
Proof.
  induction d as [|[k' v'] d IH]; simpl; [done|].
  destruct (String.eqb_spec k' k) as [->|Hne].
  - intros [= ->]. apply elem_of_cons; by left.
  - intros H. apply elem_of_cons; right. by apply IH.
Qed.

(** What the three accumulators hold after a sequence of bindings. *)
Lemma tables_spec bs :
  let t := foldl apply_binding empty_tables bs in
  imports t = list_to_set (map bound_name bs)
  ∧ (∀ name, import_aliases t !! name = last_binding name bs)
  ∧ NoDup (map fst (import_statements t))
  ∧ (∀ stmt, stmt_lines stmt (import_statements t) =
       match lines_of stmt bs with [] => None | ls => Some ls end).
Proof.
  induction bs as [|b bs IH] using rev_ind; simpl.
  - split; [done|]. split; [intros name; apply lookup_empty|].
    split; [apply NoDup_nil_2 | done].
  - rewrite foldl_app. simpl. set (t := foldl apply_binding empty_tables bs) in *.
    destruct IH as (Hi & Ha & Hn & Hs). simpl. repeat split.
    + rewrite Hi, map_app, list_to_set_app_L. simpl. set_solver.
    + intros name. rewrite last_binding_snoc.
      destruct (String.eqb_spec (bound_name b) name) as [<-|Hne].
      * by rewrite lookup_insert_eq.
      * by rewrite lookup_insert_ne.
    + by apply append_line_NoDup.
    + intros stmt. rewrite lines_of_snoc.
      destruct (String.eqb_spec (statement_text b) stmt) as [<-|Hne].
      * rewrite stmt_lines_append_eq, Hs.
        destruct (lines_of (statement_text b) bs) as [|x ls]; simpl; [done|].
        reflexivity.
      * rewrite stmt_lines_append_ne by congruence. rewrite Hs, app_nil_r. done.
Qed.

(** ** The usage set *)

Lemma name_ids_app a b : name_ids (a ++ b) = name_ids a ++ name_ids b.
Proof. unfold name_ids. by rewrite map_app, concat_app. Qed.

Lemma name_ids_alias names : name_ids (map AliasNode names) = [].
Proof. unfold name_ids. induction names; simpl; auto. Qed.

(** The visitor collects the identifiers of all [Name] nodes of the tree. *)
Lemma collect_names_ids n : ∀ used,
  collect_names n used = used ∪ list_to_set (name_ids (pre_order n)).
Proof.
  induction n as [l ns|l m ns|id c|v a c IH|a|c|cs IH] using node_ind';
    intros used; simpl.
  - change (name_ids (Import l ns :: map AliasNode ns))
      with (name_ids (map AliasNode ns)). rewrite name_ids_alias. set_solver.
  - change (name_ids (ImportFrom l m ns :: map AliasNode ns))
      with (name_ids (map AliasNode ns)). rewrite name_ids_alias. set_solver.
  - unfold name_ids. simpl. set_solver.
  - rewrite IH.
    change (name_ids (Attribute v a c :: pre_order v ++ [Ctx c]))
      with (name_ids (pre_order v ++ [Ctx c])).
    rewrite name_ids_app. unfold name_ids at 2. simpl. by rewrite app_nil_r.
  - unfold name_ids. simpl. set_solver.
  - unfold name_ids. simpl. set_solver.
  - change (name_ids (Other cs :: concat (map pre_order cs)))
      with (name_ids (all_nodes cs)).
    revert used. induction IH as [|c cs Hc _ IHcs]; intros used; simpl.
    + unfold name_ids. simpl. set_solver.
    + rewrite IHcs, Hc.
      change (all_nodes (c :: cs)) with (pre_order c ++ all_nodes cs).
      rewrite name_ids_app, list_to_set_app_L. set_solver.
Qed.

(** ** The visitor *)

Lemma visit_children_returns v cs :
  (∀ c used u, v c used = Ok u → u = collect_names c used) →
  ∀ used u, visit_children v cs used = Ok u →
            u = fold_left (λ u c, collect_names c u) cs used.
Proof.
  intros Hv. induction cs as [|c cs IH]; intros used u; simpl.
  - by intros [= ->].
  - destruct (v c used) as [used'|e] eqn:E; simpl; [|done].
    apply Hv in E as ->. apply IH.
Qed.

Lemma visit_children_raises v cs :
  (∀ c used e, v c used = Raise e → e = recursion_error) →
  ∀ used e, visit_children v cs used = Raise e → e = recursion_error.
Proof.
  intros Hv. induction cs as [|c cs IH]; intros used e; simpl; [done|].
  destruct (v c used) as [used'|e'] eqn:E; simpl; [apply IH|].
  intros [= <-]. by apply Hv in E.
Qed.

Lemma collect_names_alias names used :
  fold_left (λ u c, collect_names c u) (map AliasNode names) used = used.
Proof. induction names; simpl; auto. Qed.

Lemma collect_names_children n used :
  (∀ id c, n ≠ Name id c) →
  fold_left (λ u c, collect_names c u) (iter_child_nodes n) used =
    collect_names n used.
Proof.
  destruct n; simpl; intros Hn; rewrite ?collect_names_alias; try done.
  by destruct (Hn id ctx).
Qed.

(** When the visitor returns, it returns the usage set. *)
Lemma visit_returns frames : ∀ n used u,
  visit frames n used = Ok u → u = collect_names n used.
Proof.
  induction frames as [frames IH] using lt_wf_ind. intros n used u.
  destruct frames as [|[|below]]; [done..|].
  destruct n; cbn [visit];
    try (destruct below as [|below']; [done|]; intros H;
         apply (visit_children_returns _ _ (IH (S below') ltac:(lia))) in H;
         by rewrite H, collect_names_children).
  - by intros [= <-].
  - destruct below as [|[|below']]; [done..|]. intros H.
    apply (visit_children_returns _ _ (IH (S below') ltac:(lia))) in H.
    by rewrite H.
Qed.

(** The visitor raises nothing but [RecursionError]. *)
Lemma visit_raises frames : ∀ n used e,
  visit frames n used = Raise e → e = recursion_error.
Proof.
  induction frames as [frames IH] using lt_wf_ind. intros n used e.
  destruct frames as [|[|below]]; [by intros [= <-]..|].
  destruct n; cbn [visit];
    try (destruct below as [|below']; [by intros [= <-]|];
         by apply (visit_children_raises _ _ (IH (S below') ltac:(lia)))).
  - done.
  - destruct below as [|[|below']]; [by intros [= <-]..|].
    by apply (visit_children_raises _ _ (IH (S below') ltac:(lia))).
Qed.

Lemma visit_children_enough v cs used :
  Forall (λ c, ∀ used, v c used = Ok (collect_names c used)) cs →
  visit_children v cs used =
    Ok (fold_left (λ u c, collect_names c u) cs used).
Proof.
  intros Hcs. revert used. induction Hcs as [|c cs Hc _ IH]; intros used; [done|].
  simpl. rewrite Hc. simpl. apply IH.
Qed.

Lemma visit_leaf frames n used :
  iter_child_nodes n = [] → (∀ id c, n ≠ Name id c) → (3 ≤ frames)%nat →
  visit frames n used = Ok (collect_names n used).
Proof.
  intros Hc Hn Hf. destruct frames as [|[|[|below]]]; [lia..|].
  rewrite <- (collect_names_children n used Hn).
  destruct n; cbn [visit]; try (by rewrite Hc); done.
Qed.

(** The visitor returns on a tree when it has the frames the tree needs. *)
Lemma visit_enough n : ∀ frames used,
  (frames_needed n ≤ frames)%nat →
  visit frames n used = Ok (collect_names n used).
Proof.
  induction n as [l ns|l m ns|id c|v a c IH|a|c|cs IH] using node_ind';
    intros frames used Hf; cbn [frames_needed] in Hf.
  - destruct frames as [|[|[|below]]]; [destruct ns; lia..|]. cbn [visit].
    rewrite <- (collect_names_children (Import l ns)) by done.
    apply visit_children_enough. apply Forall_fmap, Forall_forall.
    intros a Ha used'. apply (visit_leaf (S below) (AliasNode a)); [done..|].
    destruct ns; [by apply elem_of_nil in Ha | lia].
  - destruct frames as [|[|[|below]]]; [destruct ns; lia..|]. cbn [visit].
    rewrite <- (collect_names_children (ImportFrom l m ns)) by done.
    apply visit_children_enough. apply Forall_fmap, Forall_forall.
    intros a Ha used'. apply (visit_leaf (S below) (AliasNode a)); [done..|].
    destruct ns; [by apply elem_of_nil in Ha | lia].
  - by destruct frames as [|[|below]]; [lia..|].
  - destruct frames as [|[|[|[|below]]]]; [lia..|]. cbn [visit].
    rewrite <- (collect_names_children (Attribute v a c)) by done.
    apply visit_children_enough.
    apply Forall_cons; split; [|apply Forall_cons; split; [|constructor]].
    + intros used'. apply (IH (S below)). lia.
    + intros used'. apply (visit_leaf (S below) (Ctx c)); [done..|lia].
  - apply visit_leaf; [done..|lia].
  - apply visit_leaf; [done..|lia].
  - destruct frames as [|[|[|below]]]; [lia..|]. cbn [visit].
    rewrite <- (collect_names_children (Other cs)) by done.
    apply visit_children_enough. simpl.
    assert (foldr Nat.max 0%nat (map frames_needed cs) ≤ S below)%nat as Hm by lia.
    clear Hf. induction IH as [|c cs' Hc _ IHcs]; [constructor|].
    simpl in Hm. apply Forall_cons; split.
    + intros used'. apply (Hc (S below)). lia.
    + apply IHcs. lia.
Qed.

Lemma elem_of_name_ids id l : id ∈ name_ids l ↔ ∃ c, Name id c ∈ l.
Proof.
  unfold name_ids. induction l as [|n l IH]; simpl.
  - split; [by intros ?%elem_of_nil | by intros [c ?%elem_of_nil]].
  - rewrite elem_of_app, IH. split.
    + intros [Hin|[c Hc]].
      * destruct n; try by apply elem_of_nil in Hin.
        apply list_elem_of_singleton in Hin as ->. eexists. by left.
      * exists c. by right.
    + intros [c [<-|Hc]%elem_of_cons].
      * left. by left.
      * right. by exists c.
Qed.

(** ** The analysis of a parsed file *)

Lemma last_binding_is_Some name bs :
  name ∈ map bound_name bs → is_Some (last_binding name bs).
Proof.
  induction bs as [|b bs IH]; simpl; intros Hin.
  - by apply elem_of_nil in Hin.
  - apply elem_of_cons in Hin as [->|Hin].
    + destruct (last_binding (bound_name b) bs); [by eexists|].
      rewrite String.eqb_refl. by eexists.
    + destruct (IH Hin) as [x ->]. by eexists.
Qed.

Lemma last_binding_elem name bs lineno stmt :
  last_binding name bs = Some (lineno, stmt) → Binding name lineno stmt ∈ bs.
Proof.
  induction bs as [|b bs IH]; simpl; [done|].
  destruct (last_binding name bs) as [x|].
  - intros [= ->]. apply elem_of_cons; right. by apply IH.
  - destruct (String.eqb_spec (bound_name b) name) as [<-|]; [|done].
    intros [= <- <-]. apply elem_of_cons; left. by destruct b.
Qed.

Lemma unused_loop_ok filename aliases names : ∀ acc,
  Forall (λ name, is_Some (aliases !! name)) names →
  unused_loop filename aliases names acc =
    Ok (acc ++ map (finding_of filename aliases) names).
Proof.
  induction names as [|name names IH]; intros acc Hn; simpl.
  - by rewrite app_nil_r.
  - apply Forall_cons in Hn as [[[l s] Hl] Hn].
    unfold finding_of at 1. rewrite Hl. rewrite (IH _ Hn).
    by rewrite <- app_assoc.
Qed.

Lemma duplicate_loop_filter filename items :
  duplicate_loop filename items =
    map (duplicate_of filename)
        (List.filter (λ item, (1 <? length item.2)%nat) items).
Proof.
  induction items as [|[stmt lines] items IH]; simpl; [done|].
  destruct (1 <? length lines)%nat; simpl; by rewrite IH.
Qed.

Lemma unused_names_spec o tree name :
  name ∈ unused_names o tree ↔
    name ∈ map bound_name (bindings (pre_order tree))
    ∧ name ∉ name_ids (pre_order tree).
Proof.
  unfold unused_names. rewrite (iter_set_perm o), elem_of_elements.
  rewrite elem_of_difference, collect_names_ids, scan_imports_bindings.
  destruct (tables_spec (bindings (walk tree))) as (-> & _).
  rewrite elem_of_union, !elem_of_list_to_set, elem_of_empty.
  assert (map bound_name (bindings (walk tree))
          ≡ₚ map bound_name (bindings (pre_order tree))) as ->.
  { unfold bindings. by rewrite walk_pre_order. }
  tauto.
Qed.

Lemma unused_names_NoDup o tree : NoDup (unused_names o tree).
Proof. unfold unused_names. rewrite (iter_set_perm o). apply NoDup_elements. Qed.

(** The analysis of a parsed file ends as the visitor does: line 62 never
    raises. *)
Lemma analyse_tree_ok frames o filename tree :
  analyse_tree frames o filename tree =
    match visit frames tree ∅ with
    | Ok _ =>
        Ok (map (finding_of filename (import_aliases (scan_imports tree)))
                (unused_names o tree),
            duplicate_loop filename (import_statements (scan_imports tree)))
    | Raise e => Raise e
    end.
Proof.
  unfold analyse_tree. destruct (visit frames tree ∅) as [used|e] eqn:Hv; [|done].
  apply visit_returns in Hv as ->. cbn [mbind result_bind].
  fold (unused_names o tree).
  rewrite unused_loop_ok; [done|].
  apply Forall_forall. intros name Hin.
  apply unused_names_spec in Hin as [Hin _].
  rewrite scan_imports_bindings.
  destruct (tables_spec (bindings (walk tree))) as (_ & -> & _).
  apply last_binding_is_Some.
  assert (map bound_name (bindings (walk tree))
          ≡ₚ map bound_name (bindings (pre_order tree))) as ->; [|done].
  unfold bindings. by rewrite walk_pre_order.
Qed.

Lemma analyse_tree_returns frames o filename tree unused duplicates :
  analyse_tree frames o filename tree = Ok (unused, duplicates) →
  unused = map (finding_of filename (import_aliases (scan_imports tree)))
               (unused_names o tree)
  ∧ duplicates = duplicate_loop filename (import_statements (scan_imports tree)).
Proof.
  rewrite analyse_tree_ok. destruct (visit frames tree ∅); [|done].
  by intros [= <- <-].
Qed.

Lemma analyse_tree_enough frames o filename tree :
  (frames_needed tree ≤ frames)%nat →
  analyse_tree frames o filename tree =
    Ok (map (finding_of filename (import_aliases (scan_imports tree)))
            (unused_names o tree),
        duplicate_loop filename (import_statements (scan_imports tree))).
Proof. intros Hf. by rewrite analyse_tree_ok, (visit_enough _ _ _ Hf). Qed.

Lemma bindings_walk_pre_order tree :
  bindings (walk tree) ≡ₚ bindings (pre_order tree).
Proof. unfold bindings. by rewrite walk_pre_order. Qed.

Lemma read_and_parse_ok w o filename tree :
  read_and_parse w filename = Ok tree →
  find_unused_and_duplicate_imports_in_file w o filename =
    analyse_tree (frames_left w) o filename tree.
Proof. intros H. unfold find_unused_and_duplicate_imports_in_file. by rewrite H. Qed.

(** ** Bound names *)

Lemma append_cons c s r : String c s +:+ r = String c (s +:+ r).
Proof. reflexivity. Qed.

Lemma append_nil_l r : "" +:+ r = r.
Proof. reflexivity. Qed.

Lemma append_nil_r s : s +:+ "" = s.
Proof. induction s as [|c s IH]; [done|]. by rewrite append_cons, IH. Qed.

Lemma split_dot_head_spec s :
  (dot ∉ chars (split_dot_head s))
  ∧ (∃ rest, s = split_dot_head s +:+ rest
             ∧ (rest = "" ∨ ∃ r, rest = String dot r)).
Proof.
  induction s as [|c s (IHn & rest & IHe & IHr)]; simpl.
  - split; [by intros ?%elem_of_nil|]. exists "". by split; [|left].
  - destruct (Ascii.eqb_spec c dot) as [->|Hne]; simpl.
    + split; [by intros ?%elem_of_nil|]. exists (String dot s). split; [done|].
      right. by exists s.
    + split.
      * intros [?|?]%elem_of_cons; [congruence|done].
      * exists rest. split; [|exact IHr]. rewrite IHe at 1. reflexivity.
Qed.

Lemma split_dot_head_segment seg rest :
  dot ∉ chars seg → (rest = "" ∨ ∃ r, rest = String dot r) →
  split_dot_head (seg +:+ rest) = seg.
Proof.
  intros Hseg Hrest. induction seg as [|c seg IH].
  - rewrite append_nil_l. by destruct Hrest as [->|[r ->]].
  - rewrite append_cons. simpl in *. apply not_elem_of_cons in Hseg as [Hc Hseg].
    destruct (Ascii.eqb_spec c dot) as [->|_]; [done|]. by rewrite IH.
Qed.

(** The first segment of a dotted path is what [split(".")[0]] returns. *)
Lemma first_segment_split seg s : first_segment seg s ↔ seg = split_dot_head s.
Proof.
  split.
  - intros [Hseg [->|[r ->]]].
    + rewrite <- (append_nil_r seg) at 2.
      symmetry. apply split_dot_head_segment; [done | by left].
    + symmetry. apply split_dot_head_segment; [done | right; by exists r].
  - intros ->. destruct (split_dot_head_spec s) as (Hn & rest & He & [->|[r ->]]).
    + split; [done|]. left. by rewrite append_nil_r in He.
    + split; [done|]. right. by exists r.
Qed.

(** The bound names the import loop records for a node are the names the
    node binds. *)
Lemma imports_name_bindings n name :
  aliases_non_empty n →
  imports_name n name ↔ name ∈ map bound_name (bindings_of_node n).
Proof.
  intros Hn. split.
  - intros H. destruct H as [l ns a x Ha Hx|l ns a seg Ha Hx Hs|l m ns a x Ha Hx|l m ns a Ha Hx];
      simpl in *; rewrite map_map; apply list_elem_of_fmap; exists a;
      (split; [|done]); simpl; rewrite Forall_forall in Hn;
      specialize (Hn a Ha).
    + unfold import_name. rewrite Hx in *. simpl.
      by destruct (String.eqb_spec x "") as [->|_].
    + unfold import_name. rewrite Hx. simpl. by apply first_segment_split.
    + unfold from_name. rewrite Hx in *. simpl.
      by destruct (String.eqb_spec x "") as [->|_].
    + unfold from_name. by rewrite Hx.
  - destruct n as [l ns|l m ns| | | | |]; simpl in *;
      try (by intros ?%elem_of_nil);
      rewrite map_map; intros (a & -> & Ha)%list_elem_of_fmap; simpl;
      rewrite Forall_forall in Hn; specialize (Hn a Ha).
    + unfold import_name. destruct (alias_asname a) as [x|] eqn:Hx; simpl.
      * destruct (String.eqb_spec x "") as [->|_]; [done|]. simpl.
        by apply (plain_alias l ns a).
      * apply (plain_first_segment l ns a); [done..|].
        by apply first_segment_split.
    + unfold from_name. destruct (alias_asname a) as [x|] eqn:Hx; simpl.
      * destruct (String.eqb_spec x "") as [->|_]; [done|]. simpl.
        by apply (from_alias l m ns a).
      * by apply (from_plain l m ns a).
Qed.

Lemma imports_name_among l name :
  Forall aliases_non_empty l →
  (∃ n, n ∈ l ∧ imports_name n name) ↔ name ∈ map bound_name (bindings l).
Proof.
  unfold bindings. induction 1 as [|n l Hn _ IH]; simpl.
  - split; [by intros (n & ?%elem_of_nil & _) | by intros ?%elem_of_nil].
  - rewrite map_app, elem_of_app, <- IH, <- (imports_name_bindings n name Hn).
    split.
    + intros (n' & [->|Hin]%elem_of_cons & Hname); [by left|].
      right. by exists n'.
    + intros [Hname|(n' & Hin & Hname)].
      * exists n. split; [by left | done].
      * exists n'. split; [by right | done].
Qed.

(** ** Unused imports *)

(** C1 as stated fails: a file that parses, with [import json] on line 1 and
    an attribute chain of 400 accesses on line 2, binds [json] and never
    refers to it, yet nothing is reported: the recursive visitor exhausts the
    interpreter's frames and the analyzer ends with [RecursionError]. *)
Lemma unused_not_reported_counterexample :
  read_and_parse deep_world "proj/deep.py" = Ok deep_tree
  ∧ Import 1 [alias_json] ∈ pre_order deep_tree
  ∧ imports_name (Import 1 [alias_json]) "json"
  ∧ ("json" ∉ name_ids (pre_order deep_tree))
  ∧ find_unused_and_duplicate_imports_in_file deep_world forward_order
      "proj/deep.py" = Raise recursion_error.
Proof.
  split; [reflexivity|]. split; [|split; [|split]].
  - apply list_elem_of_In. right. left. reflexivity.
  - apply (plain_first_segment 1 [alias_json] alias_json); [by left|done|].
    by apply first_segment_split.
  - intros H. apply list_elem_of_In in H. vm_compute in H.
    destruct H as [H|[H|[]]]; discriminate H.
  - vm_compute. reflexivity.
Qed.

(** C1, amended: for a file that parses (its aliases as the parser makes
    them, none empty) and on which the analyzer returns, the names reported
    as unused are exactly the names bound by the import statements of the
    tree that are not identifiers of name-reference nodes of the tree; each
    is reported once, by a finding made from one of the import bindings of
    that name. *)
Theorem unused_is_imports_minus_used w o filename tree unused duplicates :
  read_and_parse w filename = Ok tree →
  Forall aliases_non_empty (pre_order tree) →
  find_unused_and_duplicate_imports_in_file w o filename = Ok (unused, duplicates) →
  ∃ names,
    NoDup names
    ∧ (∀ name, name ∈ names ↔
         (∃ n, n ∈ pre_order tree ∧ imports_name n name)
         ∧ ¬ (∃ c, Name name c ∈ pre_order tree))
    ∧ Forall2 (λ name r, ∃ lineno stmt,
                 Binding name lineno stmt ∈ bindings (pre_order tree)
                 ∧ r = unused_record filename lineno stmt)
              names unused.
Proof.
  intros Hparse Haliases.
  rewrite (read_and_parse_ok _ _ _ _ Hparse).
  intros [-> _]%analyse_tree_returns.
  exists (unused_names o tree).
  split; [apply unused_names_NoDup|]. split.
  - intros name.
    rewrite unused_names_spec, (imports_name_among _ _ Haliases), elem_of_name_ids.
    done.
  - apply Forall2_fmap_r, Forall_Forall2_diag, Forall_forall.
    intros name Hin. apply unused_names_spec in Hin as [Hin _].
    rewrite <- bindings_walk_pre_order in Hin.
    apply last_binding_is_Some in Hin as [[l s] Hl].
    exists l, s. split.
    + rewrite <- bindings_walk_pre_order. by apply last_binding_elem.
    + unfold finding_of. rewrite scan_imports_bindings.
      destruct (tables_spec (bindings (walk tree))) as (_ & -> & _).
      by rewrite Hl.
Qed.

Lemma unused_is_imports_minus_used_witness :
  ∃ names,
    NoDup names
    ∧ (∀ name, name ∈ names ↔
         (∃ n, n ∈ pre_order json_twice ∧ imports_name n name)
         ∧ ¬ (∃ c, Name name c ∈ pre_order json_twice))
    ∧ Forall2 (λ name r, ∃ lineno stmt,
                 Binding name lineno stmt ∈ bindings (pre_order json_twice)
                 ∧ r = unused_record "proj/a.py" lineno stmt)
              names [unused_record "proj/a.py" 2 "import json"].
Proof.
  apply (unused_is_imports_minus_used
           (sample_world "proj" [("a.py", Parsed json_twice)]) forward_order
           "proj/a.py" json_twice _
           [duplicate_record "proj/a.py" [1; 2] "import json"]).
  - reflexivity.
  - repeat constructor; discriminate.
  - vm_compute. reflexivity.
Defined.

(** C2 as stated fails: with an import of [json] nested in a function on
    line 2 and a top-level one on line 3, the table holds line 2 although the
    import that is last in document order is the one on line 3. *)
Lemma last_import_pre_order_counterexample :
  last_binding "json" (bindings (pre_order nested_json)) = Some (3, "import json")
  ∧ import_aliases (scan_imports nested_json) !! "json" = Some (2, "import json")
  ∧ analyse_tree 997 forward_order "m.py" nested_json =
      Ok ([unused_record "m.py" 2 "import json"],
          [duplicate_record "m.py" [3; 2] "import json"]).
Proof. repeat split; vm_compute; reflexivity. Qed.

Lemma bindings_app a b : bindings (a ++ b) = bindings a ++ bindings b.
Proof. unfold bindings. by rewrite map_app, concat_app. Qed.

Lemma bindings_top_level cs :
  Forall (λ c, bindings (all_nodes (iter_child_nodes c)) = []) cs →
  bindings (all_nodes cs) = bindings cs
  ∧ bindings (all_nodes (children_of cs)) = [].
Proof.
  induction 1 as [|c cs Hc _ [IH1 IH2]]; [done|].
  change (all_nodes (c :: cs)) with (pre_order c ++ all_nodes cs).
  change (children_of (c :: cs)) with (iter_child_nodes c ++ children_of cs).
  rewrite all_nodes_app, !bindings_app, pre_order_children, IH1, IH2, Hc.
  change (bindings (c :: all_nodes (iter_child_nodes c)))
    with (bindings_of_node c ++ bindings (all_nodes (iter_child_nodes c))).
  rewrite Hc, app_nil_r. done.
Qed.

(** When the imports are all top-level statements, [ast.walk] meets them in
    document order. *)
Lemma bindings_breadth_first_top_level tree :
  top_level_only tree →
  bindings (breadth_first tree) = bindings (pre_order tree).
Proof.
  intros (cs & -> & Hcs). destruct (bindings_top_level cs Hcs) as [H1 H2].
  rewrite pre_order_children. unfold breadth_first.
  change (height (Other cs)) with (S (foldr Nat.max 0%nat (map height cs))).
  set (h := foldr Nat.max 0%nat (map height cs)).
  assert (Forall (λ c, (height c ≤ h)%nat) cs) as Hh.
  { apply (proj1 (Forall_fmap height (λ x, (x ≤ h)%nat) cs)).
    by apply foldr_max_le. }
  cbn [level_order].
  change (concat (map iter_child_nodes [Other cs])) with (cs ++ []).
  rewrite app_nil_r. change ([Other cs] ++ level_order h cs)
    with (Other cs :: level_order h cs).
  change (bindings (Other cs :: level_order h cs))
    with (bindings (level_order h cs)).
  change (bindings (Other cs :: all_nodes (iter_child_nodes (Other cs))))
    with (bindings (all_nodes cs)).
  rewrite H1. destruct h as [|h'].
  - apply height_zero in Hh as ->. reflexivity.
  - cbn [level_order]. fold (children_of cs). rewrite bindings_app.
    assert (bindings (level_order h' (children_of cs)) = []) as ->.
    { apply Permutation_nil_r. rewrite <- H2. unfold bindings.
      rewrite level_order_all_nodes; [done|]. by apply height_children_of. }
    by rewrite app_nil_r.
Qed.

(** C2, amended: the table used for unused-import reporting maps a bound
    name to the line and statement text of its last import in the order of
    [ast.walk], which is breadth first: level by level, each level in
    document order.  Whenever the analysis returns, every unused finding is
    made from that entry.  When the imports are all top-level statements
    this is the last import in document order. *)
Theorem last_import_breadth_first o filename tree :
  (∀ name, import_aliases (scan_imports tree) !! name =
             last_binding name (bindings (breadth_first tree)))
  ∧ (∀ frames unused duplicates,
       analyse_tree frames o filename tree = Ok (unused, duplicates) →
       unused =
         map (λ name,
                match last_binding name (bindings (breadth_first tree)) with
                | Some (lineno, stmt) => unused_record filename lineno stmt
                | None => []
                end) (unused_names o tree))
  ∧ (top_level_only tree →
     ∀ name, import_aliases (scan_imports tree) !! name =
               last_binding name (bindings (pre_order tree))).
Proof.
  assert (∀ name, import_aliases (scan_imports tree) !! name =
                    last_binding name (bindings (breadth_first tree))) as Hlast.
  { intros name. rewrite scan_imports_bindings, walk_breadth_first.
    by destruct (tables_spec (bindings (breadth_first tree))) as (_ & -> & _). }
  split; [exact Hlast|]. split.
  - intros frames unused duplicates [-> _]%analyse_tree_returns.
    apply map_ext. intros name. unfold finding_of. by rewrite Hlast.
  - intros Htop name. by rewrite Hlast, bindings_breadth_first_top_level.
Qed.

Lemma last_import_breadth_first_witness :
  import_aliases (scan_imports json_twice) !! "json" =
    last_binding "json" (bindings (pre_order json_twice))
  ∧ [unused_record "a.py" 2 "import json"] =
      map (λ name,
             match last_binding name (bindings (breadth_first json_twice)) with
             | Some (lineno, stmt) => unused_record "a.py" lineno stmt
             | None => []
             end) (unused_names forward_order json_twice).
Proof.
  destruct (last_import_breadth_first forward_order "a.py" json_twice)
    as (_ & Hret & Htop).
  split.
  - apply Htop. exists [Import 1 [alias_json]; Import 2 [alias_json]].
    split; [reflexivity|]. repeat constructor.
  - apply (Hret 997%nat _ [duplicate_record "a.py" [1; 2] "import json"]).
    vm_compute. reflexivity.
Defined.

(** ** Duplicate imports *)

Lemma stmt_lines_of tree stmt lines :
  (stmt, lines) ∈ import_statements (scan_imports tree) →
  lines = lines_of stmt (bindings (walk tree)) ∧ lines ≠ [].
Proof.
  rewrite scan_imports_bindings.
  destruct (tables_spec (bindings (walk tree))) as (_ & _ & Hn & Hs).
  intros Hin. apply (stmt_lines_elem _ _ _ Hn) in Hin. rewrite Hs in Hin.
  destruct (lines_of stmt (bindings (walk tree))); [done|].
  by injection Hin as <-.
Qed.

Lemma NoDup_fst_filter {A B} (p : A * B → bool) (l : list (A * B)) :
  NoDup (map fst l) → NoDup (map fst (List.filter p l)).
Proof.
  induction l as [|x l IH]; simpl; [done|]. intros Hl.
  apply NoDup_cons in Hl as [Hx Hl]. destruct (p x); simpl; [|by apply IH].
  apply NoDup_cons; split; [|by apply IH].
  intros Hin. apply Hx. apply list_elem_of_fmap in Hin as (y & -> & Hy).
  apply list_elem_of_fmap. exists y. split; [done|].
  apply list_elem_of_In. apply list_elem_of_In, List.filter_In in Hy. tauto.
Qed.

(** The duplicate findings: one per statement text borne by two or more
    bindings, with the lines of exactly those bindings in walk order. *)
Lemma duplicate_loop_spec filename tree :
  ∃ stmts,
    NoDup stmts
    ∧ (∀ stmt, stmt ∈ stmts ↔ (1 < length (lines_of stmt (bindings (walk tree))))%nat)
    ∧ duplicate_loop filename (import_statements (scan_imports tree)) =
        map (λ stmt, duplicate_record filename
                       (lines_of stmt (bindings (walk tree))) stmt) stmts.
Proof.
  set (d := import_statements (scan_imports tree)).
  set (p := λ item : string * list Z, (1 <? length item.2)%nat).
  exists (map fst (List.filter p d)).
  assert (NoDup (map fst d)) as Hnd.
  { subst d. rewrite scan_imports_bindings.
    by destruct (tables_spec (bindings (walk tree))) as (_ & _ & Hn & _). }
  split; [by apply NoDup_fst_filter|]. split.
  - intros stmt. split.
    + intros Hin. apply list_elem_of_fmap in Hin as ([k v] & -> & Hin).
      apply list_elem_of_In, List.filter_In in Hin as [Hin Hp].
      apply list_elem_of_In, stmt_lines_of in Hin as [Hv _].
      unfold p in Hp. simpl in *. rewrite <- Hv. by apply Nat.ltb_lt.
    + intros Hlen. apply list_elem_of_fmap.
      exists (stmt, lines_of stmt (bindings (walk tree))). split; [done|].
      apply list_elem_of_In, List.filter_In. split.
      * apply list_elem_of_In, stmt_lines_Some. subst d.
        rewrite scan_imports_bindings.
        destruct (tables_spec (bindings (walk tree))) as (_ & _ & _ & ->).
        destruct (lines_of stmt (bindings (walk tree))); [simpl in Hlen; lia | done].
      * unfold p. simpl. by apply Nat.ltb_lt.
  - rewrite duplicate_loop_filter. fold p. rewrite map_map.
    apply map_ext_in. intros [k v] Hin.
    apply List.filter_In in Hin as [Hin _].
    apply list_elem_of_In, stmt_lines_of in Hin as [Hv _].
    unfold duplicate_of. simpl. by rewrite <- Hv.
Qed.

Lemma lines_of_sorted stmt bs :
  Sorted Z.le (map binding_line bs) → Sorted Z.le (lines_of stmt bs).
Proof.
  intros Hs. apply Sorted_StronglySorted in Hs; [|intros x y z; lia].
  apply StronglySorted_Sorted. unfold lines_of.
  induction bs as [|b bs IH]; simpl in *; [constructor|].
  apply StronglySorted_inv in Hs as [Hs Hb].
  destruct (String.eqb (statement_text b) stmt); simpl; [|by apply IH].
  constructor; [by apply IH|].
  apply Forall_forall. intros x Hx.
  rewrite Forall_forall in Hb. apply Hb.
  apply list_elem_of_In, in_map_iff in Hx as (b' & <- & Hb').
  apply List.filter_In in Hb' as [Hb' _].
  apply list_elem_of_In, in_map. exact Hb'.
Qed.

Lemma seq_snoc_levels d q :
  level_order d q = concat (map (λ k, nth_level k q) (seq 0 d)).
Proof.
  revert q. induction d as [|d IH]; intros q; [done|].
  cbn [level_order seq map concat nth_level]. f_equal.
  rewrite IH, <- (fmap_S_seq 0 d). fold (children_of q).
  change (S <$> seq 0 d) with (map S (seq 0 d)). by rewrite map_map.
Qed.

Lemma nodes_sublist q : q `sublist_of` all_nodes q.
Proof.
  induction q as [|n q IH]; [constructor|].
  change (all_nodes (n :: q)) with (pre_order n ++ all_nodes q).
  rewrite pre_order_children. simpl. constructor.
  by apply sublist_inserts_l.
Qed.

Lemma all_nodes_children_sublist q :
  all_nodes (children_of q) `sublist_of` all_nodes q.
Proof.
  induction q as [|n q IH]; [constructor|].
  change (all_nodes (n :: q)) with (pre_order n ++ all_nodes q).
  change (children_of (n :: q)) with (iter_child_nodes n ++ children_of q).
  rewrite all_nodes_app, pre_order_children. simpl. apply sublist_cons.
  by apply sublist_app.
Qed.

Lemma nth_level_nil k : nth_level k [] = [].
Proof. induction k as [|k IH]; [reflexivity | exact IH]. Qed.

(** The nodes of one level stand in document order. *)
Lemma nth_level_sublist k : ∀ q, nth_level k q `sublist_of` all_nodes q.
Proof.
  induction k as [|k IH]; intros q; simpl; [apply nodes_sublist|].
  etrans; [apply IH | apply all_nodes_children_sublist].
Qed.

Lemma bindings_sublist l1 l2 :
  l1 `sublist_of` l2 → bindings l1 `sublist_of` bindings l2.
Proof.
  unfold bindings. induction 1 as [|n l1 l2 _ IH|n l1 l2 _ IH]; simpl.
  - constructor.
  - by apply sublist_app.
  - by apply sublist_inserts_l.
Qed.

Lemma map_sublist {A B} (f : A → B) (l1 l2 : list A) :
  l1 `sublist_of` l2 → map f l1 `sublist_of` map f l2.
Proof. induction 1; simpl; by constructor. Qed.

Lemma Sorted_le_sublist (l1 l2 : list Z) :
  l1 `sublist_of` l2 → Sorted Z.le l2 → Sorted Z.le l1.
Proof.
  intros Hsub Hs. apply Sorted_StronglySorted in Hs; [|intros x y z; lia].
  apply StronglySorted_Sorted.
  induction Hsub as [|x l1 l2 Hsub IH|x l1 l2 Hsub IH].
  - constructor.
  - apply StronglySorted_inv in Hs as [Hs Hx]. constructor; [by apply IH|].
    apply Forall_forall. intros y Hy. rewrite Forall_forall in Hx.
    apply Hx. by apply (sublist_subseteq _ _ Hsub).
  - apply StronglySorted_inv in Hs as [Hs _]. by apply IH.
Qed.

Lemma lines_of_app stmt a b :
  lines_of stmt (a ++ b) = lines_of stmt a ++ lines_of stmt b.
Proof. unfold lines_of. by rewrite List.filter_app, map_app. Qed.

Lemma lines_of_levels stmt q (k : nat) (js : list nat) :
  NoDup js →
  (∀ j, j ≠ k → lines_of stmt (bindings (nth_level j q)) = []) →
  lines_of stmt (bindings (concat (map (λ j, nth_level j q) js))) =
    if bool_decide (k ∈ js) then lines_of stmt (bindings (nth_level k q)) else [].
Proof.
  intros Hnd Hk. induction Hnd as [|j js Hj Hnd IH]; [done|].
  cbn [map concat]. rewrite bindings_app, lines_of_app, IH.
  destruct (decide (j = k)) as [->|Hne].
  - rewrite (bool_decide_eq_true_2 (k ∈ k :: js)) by (by left).
    rewrite (bool_decide_eq_false_2 (k ∈ js)) by done. by rewrite app_nil_r.
  - rewrite (Hk j Hne). simpl. case_bool_decide as Hin.
    + by rewrite bool_decide_eq_true_2 by (by right).
    + by rewrite bool_decide_eq_false_2
        by (intros [?|?]%elem_of_cons; [congruence|done]).
Qed.

(** When the imports with one statement text are all at one depth of a tree
    whose import lines do not decrease in document order, [ast.walk] meets
    them in ascending order of their lines. *)
Lemma lines_of_one_depth stmt tree (k : nat) :
  Sorted Z.le (map binding_line (bindings (pre_order tree))) →
  (∀ j, j ≠ k → lines_of stmt (bindings (nth_level j [tree])) = []) →
  Sorted Z.le (lines_of stmt (bindings (breadth_first tree))).
Proof.
  intros Hs Hk. unfold breadth_first.
  rewrite seq_snoc_levels, (lines_of_levels stmt [tree] k) by (apply NoDup_seq || done).
  case_bool_decide; [|constructor].
  apply lines_of_sorted. eapply Sorted_le_sublist; [|exact Hs].
  apply map_sublist, bindings_sublist.
  replace (pre_order tree) with (all_nodes [tree])
    by (unfold all_nodes; simpl; apply app_nil_r).
  apply nth_level_sublist.
Qed.

(** C4 as stated fails: the same statement nested in a function on line 2
    and at top level on line 3 is reported with the lines [3; 2]. *)
Lemma duplicate_lines_sorted_counterexample :
  analyse_tree 997 forward_order "m.py" nested_json =
    Ok ([unused_record "m.py" 2 "import json"],
        [duplicate_record "m.py" [3; 2] "import json"])
  ∧ ¬ Sorted Z.le [3; 2].
Proof.
  split; [vm_compute; reflexivity|].
  intros H. apply Sorted_inv in H as [_ H]. apply HdRel_inv in H. lia.
Qed.

(** C4, amended: whenever the analysis returns, the line list of a duplicate
    finding holds the lines of the imports with that statement text in the
    order [ast.walk] meets them, breadth first.  It is ascending when the
    imports with that text all occur at one nesting depth of a tree whose
    import lines do not decrease in document order. *)
Theorem duplicate_lines_walk_order frames o filename tree unused duplicates :
  analyse_tree frames o filename tree = Ok (unused, duplicates) →
  Forall (λ r, ∃ stmt,
            r = duplicate_record filename
                  (lines_of stmt (bindings (breadth_first tree))) stmt
            ∧ ∀ k : nat,
                Sorted Z.le (map binding_line (bindings (pre_order tree))) →
                (∀ j, j ≠ k →
                      lines_of stmt (bindings (nth_level j [tree])) = []) →
                Sorted Z.le (lines_of stmt (bindings (breadth_first tree))))
         duplicates.
Proof.
  intros [_ ->]%analyse_tree_returns.
  destruct (duplicate_loop_spec filename tree) as (stmts & _ & _ & ->).
  rewrite walk_breadth_first. apply Forall_fmap, Forall_forall.
  intros stmt _. exists stmt. split; [done|]. intros k. apply lines_of_one_depth.
Qed.

Lemma duplicate_lines_walk_order_witness :
  Forall (λ r, ∃ stmt,
            r = duplicate_record "a.py"
                  (lines_of stmt (bindings (breadth_first json_twice))) stmt
            ∧ Sorted Z.le (lines_of stmt (bindings (breadth_first json_twice))))
         [duplicate_record "a.py" [1; 2] "import json"].
Proof.
  pose proof (duplicate_lines_walk_order 997 forward_order "a.py" json_twice
                [unused_record "a.py" 2 "import json"]
                [duplicate_record "a.py" [1; 2] "import json"] eq_refl) as Hall.
  eapply Forall_impl; [exact Hall|]. intros r (stmt & Hr & Hsorted).
  exists stmt. split; [exact Hr|]. apply (Hsorted 1%nat).
  - vm_compute. repeat constructor; discriminate.
  - intros [|[|[|[|j]]]] Hj; [reflexivity | done | reflexivity | reflexivity | ].
    change (nth_level (S (S (S (S j)))) [json_twice]) with (nth_level j []).
    rewrite nth_level_nil. reflexivity.
Defined.


(** C8: for [import json] on line 1 and again on line 2 the analyzer returns
    one unused finding, line 2 with text [import json], and one duplicate
    finding, lines [1, 2] with text [import json], as soon as the
    interpreter grants the visitor the seven frames this tree takes. *)
Theorem json_twice_findings w o filename :
  read_and_parse w filename = Ok json_twice →
  (7 ≤ frames_left w)%nat →
  find_unused_and_duplicate_imports_in_file w o filename =
    Ok ([unused_record filename 2 "import json"],
        [duplicate_record filename [1; 2] "import json"]).
Proof.
  intros Hparse Hframes.
  rewrite (read_and_parse_ok _ _ _ _ Hparse), analyse_tree_enough by exact Hframes.
  assert (unused_names o json_twice = ["json"]) as ->.
  { apply Permutation_singleton_r. unfold unused_names.
    rewrite (iter_set_perm o). vm_compute. reflexivity. }
  assert (import_aliases (scan_imports json_twice) !! "json"
          = Some (2, "import json")) as Ha by (vm_compute; reflexivity).
  assert (import_statements (scan_imports json_twice) =
          [("import json", [1; 2])]) as -> by (vm_compute; reflexivity).
  cbn [map]. unfold finding_of. rewrite Ha. reflexivity.
Qed.

Lemma json_twice_findings_witness :
  find_unused_and_duplicate_imports_in_file
    (sample_world "proj" [("a.py", Parsed json_twice)]) backward_order "proj/a.py" =
    Ok ([unused_record "proj/a.py" 2 "import json"],
        [duplicate_record "proj/a.py" [1; 2] "import json"]).
Proof.
  apply (json_twice_findings
           (sample_world "proj" [("a.py", Parsed json_twice)]) backward_order
           "proj/a.py").
  - reflexivity.
  - vm_compute. lia.
Defined.

(** ** Failures and the shape of the per-file result *)

Lemma unused_is_names o filename tree :
  Forall (λ r, ∃ lineno stmt, r = unused_record filename lineno stmt)
         (map (finding_of filename (import_aliases (scan_imports tree)))
              (unused_names o tree)).
Proof.
  apply Forall_fmap, Forall_forall. intros name Hin.
  apply unused_names_spec in Hin as [Hin _].
  rewrite <- bindings_walk_pre_order in Hin.
  apply last_binding_is_Some in Hin as [[l s] Hl].
  exists l, s. unfold finding_of. rewrite scan_imports_bindings.
  destruct (tables_spec (bindings (walk tree))) as (_ & -> & _).
  by rewrite Hl.
Qed.

Lemma analyse_tree_records frames o filename tree unused duplicates :
  analyse_tree frames o filename tree = Ok (unused, duplicates) →
  Forall (λ r, ∃ lineno stmt, r = unused_record filename lineno stmt) unused
  ∧ Forall (λ r, ∃ lines stmt, r = duplicate_record filename lines stmt) duplicates.
Proof.
  intros [-> ->]%analyse_tree_returns. split; [apply unused_is_names|].
  rewrite duplicate_loop_filter. apply Forall_fmap, Forall_forall.
  intros [stmt lines] _. by exists lines, stmt.
Qed.

Lemma filter_unused_records filename (l : list record) :
  Forall (λ r, ∃ lineno stmt, r = unused_record filename lineno stmt) l →
  List.filter (has_key "error") l = []
  ∧ List.filter (has_key "import_statement") l = l.
Proof.
  induction 1 as [|r l (lineno & stmt & ->) _ [IHe IHi]]; [done|].
  simpl. rewrite IHe, IHi. done.
Qed.

(** C3 as stated fails: a file that is not valid UTF-8 makes the read raise
    [UnicodeDecodeError], which no [except] clause of the analyzer names; it
    leaves the analyzer uncaught. *)
Lemma per_file_failure_counterexample :
  read_and_parse latin1_world "proj/latin1.py" = Raise decode_error
  ∧ find_unused_and_duplicate_imports_in_file latin1_world forward_order
      "proj/latin1.py" = Raise decode_error.
Proof. split; reflexivity. Qed.

(** C3, amended: a read or parse failure of class [FileNotFoundError],
    [PermissionError] or [SyntaxError] (subclasses included) is caught and
    turned into a single error record, the message of a syntax failure
    prefixed by ["SyntaxError: "]; a failure of any other class leaves the
    analyzer as raised.  For a file that parses, the analyzer returns its
    findings when the visitor of line 57 returns, and otherwise raises the
    visitor's [RecursionError], which is outside the [try] and not caught. *)
Theorem per_file_failures_caught w o filename :
  match read_and_parse w filename with
  | Ok tree =>
      match visit (frames_left w) tree ∅ with
      | Ok _ =>
          ∃ unused duplicates,
            find_unused_and_duplicate_imports_in_file w o filename
              = Ok (unused, duplicates)
      | Raise e =>
          find_unused_and_duplicate_imports_in_file w o filename = Raise e
          ∧ e = recursion_error
      end
  | Raise e =>
      if issubclass (exn_cls e) FileNotFoundError
         || issubclass (exn_cls e) PermissionError
      then find_unused_and_duplicate_imports_in_file w o filename =
             Ok ([error_record filename (exn_str e)], [])
      else if issubclass (exn_cls e) SyntaxError
      then find_unused_and_duplicate_imports_in_file w o filename =
             Ok ([error_record filename ("SyntaxError: " +:+ exn_str e)], [])
      else find_unused_and_duplicate_imports_in_file w o filename = Raise e
  end.
Proof.
  unfold find_unused_and_duplicate_imports_in_file.
  destruct (read_and_parse w filename) as [tree|e].
  - rewrite analyse_tree_ok.
    destruct (visit (frames_left w) tree ∅) as [used|e] eqn:Hv; [eauto|].
    split; [reflexivity|]. exact (visit_raises _ _ _ _ Hv).
  - destruct (issubclass (exn_cls e) FileNotFoundError
              || issubclass (exn_cls e) PermissionError); [done|].
    by destruct (issubclass (exn_cls e) SyntaxError).
Qed.

(** C10: in a per-file result every record of the first list has exactly one
    of the keys ["error"] and ["import_statement"].  After a failure the
    first list is one error record and the duplicates are empty; after a
    successful parse the first list holds unused-import records only.  So the
    caller's two filters split the list without loss or overlap. *)
Theorem result_channels_demultiplex w o filename unused duplicates :
  find_unused_and_duplicate_imports_in_file w o filename = Ok (unused, duplicates) →
  Forall (λ r, has_key "error" r = negb (has_key "import_statement" r)) unused
  ∧ match read_and_parse w filename with
    | Raise e =>
        (∃ msg, unused = [error_record filename msg])
        ∧ duplicates = []
        ∧ List.filter (has_key "error") unused = unused
        ∧ List.filter (has_key "import_statement") unused = []
    | Ok tree =>
        Forall (λ r, ∃ lineno stmt, r = unused_record filename lineno stmt) unused
        ∧ List.filter (has_key "error") unused = []
        ∧ List.filter (has_key "import_statement") unused = unused
    end.
Proof.
  unfold find_unused_and_duplicate_imports_in_file.
  destruct (read_and_parse w filename) as [tree|e].
  - intros [Hu _]%analyse_tree_records. split.
    + eapply Forall_impl; [exact Hu|]. by intros r (l & s & ->).
    + split; [exact Hu|]. by apply filter_unused_records in Hu.
  - destruct (issubclass (exn_cls e) FileNotFoundError
              || issubclass (exn_cls e) PermissionError).
    + intros [= <- <-]. repeat split; eauto.
    + destruct (issubclass (exn_cls e) SyntaxError); [|done].
      intros [= <- <-]. repeat split; eauto.
Qed.

Lemma result_channels_demultiplex_witness :
  Forall (λ r, has_key "error" r = negb (has_key "import_statement" r))
         [error_record "proj/bad.py" "SyntaxError: invalid syntax (bad.py, line 1)"]
  ∧ (∃ msg, [error_record "proj/bad.py" "SyntaxError: invalid syntax (bad.py, line 1)"]
            = [error_record "proj/bad.py" msg])
  ∧ List.filter (has_key "error")
      [error_record "proj/bad.py" "SyntaxError: invalid syntax (bad.py, line 1)"]
    = [error_record "proj/bad.py" "SyntaxError: invalid syntax (bad.py, line 1)"].
Proof.
  pose proof (result_channels_demultiplex
    (sample_world "proj"
       [("bad.py", Unparsable (Exn SyntaxError "invalid syntax (bad.py, line 1)"))])
    forward_order "proj/bad.py"
    [error_record "proj/bad.py" "SyntaxError: invalid syntax (bad.py, line 1)"] []
    eq_refl) as [Hall Hm].
  simpl in Hm. destruct Hm as (Hmsg & _ & Hf & _). auto.
Defined.

(** ** Sorting *)

Section stable_sort.
Context {K A : Type} (lt : K → K → bool).

Lemma insert_stable_perm (x : K * A) l : insert_stable lt x l ≡ₚ x :: l.
Proof.
  induction l as [|y l IH]; simpl; [done|].
  destruct (lt y.1 x.1); [|done]. rewrite IH. apply Permutation_swap.
Qed.

Lemma stable_sort_perm (l : list (K * A)) : stable_sort lt l ≡ₚ l.
Proof.
  unfold stable_sort. induction l as [|x l IH]; simpl; [done|].
  by rewrite insert_stable_perm, IH.
Qed.

Hypothesis Hlt : strict_total lt.

Lemma lt_asym a b : lt a b = true → lt b a = false.
Proof.
  intros Hab. destruct (lt b a) eqn:Hba; [|done].
  pose proof (lt_trans lt Hlt _ _ _ Hab Hba) as Haa.
  by rewrite (lt_irrefl lt Hlt) in Haa.
Qed.

Lemma not_after_trans (x y z : K * A) :
  not_after lt x y → not_after lt y z → not_after lt x z.
Proof.
  unfold not_after. intros Hxy Hyz.
  destruct (lt z.1 x.1) eqn:Hzx; [|done].
  destruct (lt x.1 y.1) eqn:Hxy'.
  - by rewrite (lt_trans lt Hlt _ _ _ Hzx Hxy') in Hyz.
  - rewrite (lt_total lt Hlt _ _ Hxy' Hxy) in Hzx. congruence.
Qed.

Lemma insert_stable_sorted (x : K * A) l :
  StronglySorted (not_after lt) l →
  StronglySorted (not_after lt) (insert_stable lt x l).
Proof.
  induction 1 as [|y l Hl IH Hy]; simpl; [repeat constructor|].
  destruct (lt y.1 x.1) eqn:Hyx.
  - constructor; [exact IH|]. rewrite insert_stable_perm.
    constructor; [|exact Hy]. by apply lt_asym.
  - constructor; [by constructor|]. constructor; [exact Hyx|].
    eapply Forall_impl; [exact Hy|]. intros z Hz.
    by apply (not_after_trans x y z).
Qed.

Lemma stable_sort_sorted (l : list (K * A)) :
  StronglySorted (not_after lt) (stable_sort lt l).
Proof.
  unfold stable_sort. induction l as [|x l IH]; simpl; [constructor|].
  by apply insert_stable_sorted.
Qed.

Lemma sorted_distinct_strict (l : list (K * A)) :
  StronglySorted (not_after lt) l → NoDup (map fst l) →
  StronglySorted (before lt) l.
Proof.
  induction 1 as [|x l Hl IH Hx]; simpl; intros Hnd; [constructor|].
  apply NoDup_cons in Hnd as [Hnx Hnd]. constructor; [by apply IH|].
  apply Forall_forall. intros y Hy. rewrite Forall_forall in Hx.
  specialize (Hx y Hy). unfold not_after in Hx. unfold before.
  destruct (lt x.1 y.1) eqn:Hxy; [done|]. exfalso. apply Hnx.
  rewrite (lt_total lt Hlt _ _ Hxy Hx). apply list_elem_of_fmap. by exists y.
Qed.

(** With pairwise distinct keys the result does not depend on the order
    of the input. *)
Lemma stable_sort_unique (l1 l2 : list (K * A)) :
  l1 ≡ₚ l2 → NoDup (map fst l1) → stable_sort lt l1 = stable_sort lt l2.
Proof.
  intros Hp Hnd.
  apply (StronglySorted_unique_strong (before lt)).
  - intros x y _ _ Hxy Hyx. unfold before in *.
    apply lt_asym in Hxy. congruence.
  - apply sorted_distinct_strict; [apply stable_sort_sorted|].
    by rewrite stable_sort_perm.
  - apply sorted_distinct_strict; [apply stable_sort_sorted|].
    by rewrite stable_sort_perm, <- Hp.
  - by rewrite !stable_sort_perm.
Qed.
End stable_sort.

Lemma str_lt_spec a b : str_lt a b = true ↔ String.leb a b = true ∧ a ≠ b.
Proof.
  unfold str_lt, String.ltb, String.leb.
  destruct (String.compare a b) eqn:E.
  - apply String.compare_eq_iff in E. split; [done | tauto].
  - split; [|done]. intros _. split; [done|]. intros ->.
    pose proof (String.compare_antisym b b) as H. rewrite E in H. done.
  - split; [done | intros [? _]; done].
Qed.

Lemma str_lt_strict_total : strict_total str_lt.
Proof.
  split.
  - intros a. destruct (str_lt a a) eqn:E; [|done].
    apply str_lt_spec in E as [_ ?]. done.
  - intros a b c [Hab Nab]%str_lt_spec [Hbc Nbc]%str_lt_spec.
    apply str_lt_spec. split.
    + apply Is_true_true. apply Is_true_true in Hab, Hbc.
      exact (transitivity (R := String.le) Hab Hbc).
    + intros ->. apply Nab. by apply String.leb_antisym.
  - intros a b Hab Hba. unfold str_lt, String.ltb in *.
    rewrite String.compare_antisym in Hba.
    destruct (String.compare a b) eqn:E; simpl in *; try done.
    by apply String.compare_eq_iff.
Qed.

Lemma file_line_lt_strict_total : strict_total file_line_lt.
Proof.
  pose proof str_lt_strict_total as [Hi Ht Ho].
  unfold file_line_lt. split.
  - intros [f l]. simpl. rewrite Hi, String.eqb_refl, Z.ltb_irrefl. done.
  - intros [f1 l1] [f2 l2] [f3 l3]. simpl.
    intros [H12|[E12 L12]%andb_true_iff]%orb_true_iff
           [H23|[E23 L23]%andb_true_iff]%orb_true_iff.
    + by rewrite (Ht _ _ _ H12 H23).
    + apply String.eqb_eq in E23 as <-. by rewrite H12.
    + apply String.eqb_eq in E12 as ->. by rewrite H23.
    + apply String.eqb_eq in E12 as ->. rewrite E23.
      apply orb_true_iff; right. apply andb_true_iff; split; [done|]. lia.
  - intros [f1 l1] [f2 l2]. simpl.
    intros [H12 G12]%orb_false_iff [H21 G21]%orb_false_iff.
    pose proof (Ho _ _ H12 H21) as ->.
    rewrite String.eqb_refl in G12, G21. simpl in *. f_equal. lia.
Qed.

(** ** The batch runner *)

Lemma find_spec w o file :
  find_unused_and_duplicate_imports_in_file w o file =
    match read_and_parse w file with
    | Ok tree =>
        match visit (frames_left w) tree ∅ with
        | Ok _ => Ok (file_unused w o file, file_duplicates w file)
        | Raise e => Raise e
        end
    | Raise e =>
        if caught (exn_cls e) then Ok ([error_record file (error_message e)], [])
        else Raise e
    end.
Proof.
  unfold find_unused_and_duplicate_imports_in_file, file_unused, file_duplicates.
  destruct (read_and_parse w file) as [tree|[c msg]].
  - apply analyse_tree_ok.
  - unfold caught, error_message. simpl. by destruct c.
Qed.

Lemma file_unused_records w o file :
  Forall (λ r, ∃ lineno stmt, r = unused_record file lineno stmt) (file_unused w o file).
Proof.
  unfold file_unused. destruct (read_and_parse w file) as [tree|e]; [|constructor].
  apply (unused_is_names o file tree).
Qed.

Lemma file_duplicates_records w file :
  Forall is_duplicate_record (file_duplicates w file).
Proof.
  unfold file_duplicates. destruct (read_and_parse w file) as [tree|e]; [|constructor].
  rewrite duplicate_loop_filter. apply Forall_fmap, Forall_forall.
  intros [stmt lines] _. by exists file, lines, stmt.
Qed.

Lemma file_errors_records w file : Forall is_error_record (file_errors w file).
Proof.
  unfold file_errors. destruct (read_and_parse w file) as [tree|e]; repeat constructor.
  by eexists _, _.
Qed.

Lemma analyse_file_spec w o file acc :
  analyse_file w o file acc =
    match first_uncaught w [file] with
    | Some e => Raise e
    | None => Ok (Accs (all_unused acc ++ file_unused w o file)
                       (all_duplicates acc ++ file_duplicates w file)
                       (all_errors acc ++ file_errors w file))
    end.
Proof.
  unfold analyse_file. rewrite find_spec.
  pose proof (file_unused_records w o file) as Hu.
  unfold first_uncaught, file_unused, file_duplicates, file_errors in *.
  destruct (read_and_parse w file) as [tree|e]; simpl.
  - destruct (visit (frames_left w) tree ∅) as [used|e]; simpl; [|done].
    apply filter_unused_records in Hu as [-> ->]. by rewrite app_nil_r.
  - destruct (caught (exn_cls e)); simpl; [|done]. by rewrite !app_nil_r.
Qed.

Lemma first_uncaught_cons w file rest :
  first_uncaught w (file :: rest) =
    match first_uncaught w [file] with
    | Some e => Some e
    | None => first_uncaught w rest
    end.
Proof.
  simpl. destruct (read_and_parse w file) as [tree|e].
  - by destruct (visit (frames_left w) tree ∅).
  - by destruct (caught (exn_cls e)).
Qed.

Lemma analyse_files_spec w o files : ∀ acc,
  analyse_files w o files acc =
    match first_uncaught w files with
    | Some e => Raise e
    | None => Ok (Accs (all_unused acc ++ concat (map (file_unused w o) files))
                       (all_duplicates acc ++ concat (map (file_duplicates w) files))
                       (all_errors acc ++ concat (map (file_errors w) files)))
    end.
Proof.
  induction files as [|file rest IH]; intros acc.
  - simpl. rewrite !app_nil_r. by destruct acc.
  - rewrite first_uncaught_cons. cbn [analyse_files]. rewrite analyse_file_spec.
    destruct (first_uncaught w [file]) as [e|]; [done|].
    cbn [mbind result_bind]. rewrite IH.
    destruct (first_uncaught w rest) as [e|]; [done|].
    simpl. by rewrite <- !app_assoc.
Qed.

(** What the run gathers before sorting. *)
Lemma gather_spec w o path :
  gather w o path =
    if os_path_isdir w path then
      match find_python_files_in_directory w path with
      | [] => Fatal ("No Python files found in directory: " +:+ path)
      | files =>
          match first_uncaught w files with
          | Some e => Gathered (Raise e)
          | None => Gathered (Ok (Accs (concat (map (file_unused w o) files))
                                       (concat (map (file_duplicates w) files))
                                       (concat (map (file_errors w) files))))
          end
      end
    else if os_path_isfile w path then
      match first_uncaught w [path] with
      | Some e => Gathered (Raise e)
      | None => Gathered (Ok (Accs (file_unused w o path) (file_duplicates w path)
                                   (file_errors w path)))
      end
    else Fatal ("Error: '" +:+ path +:+ "' is not a valid file or directory.").
Proof.
  unfold gather. destruct (os_path_isdir w path).
  - destruct (find_python_files_in_directory w path) as [|file rest]; [done|].
    rewrite analyse_files_spec.
    by destruct (first_uncaught w (file :: rest)).
  - destruct (os_path_isfile w path); [|done]. rewrite analyse_file_spec.
    by destruct (first_uncaught w [path]).
Qed.

Lemma sorted_ok {K} (lt : K → K → bool) key dflt (l : list record) :
  Forall (λ r, ∃ k, key r = Ok k) l →
  sorted lt key l = Ok (sorted_or lt key dflt l).
Proof.
  intros Hl. unfold sorted, sorted_or.
  assert (mapM (λ r, k ← key r; mret (k, r)) l
          = Ok (map (λ r, (key_or key dflt r, r)) l)) as ->; [|done].
  induction Hl as [|r l [k Hk] _ IH]; [done|].
  cbn [mapM map]. unfold key_or at 1. rewrite Hk. cbn [mbind result_bind mret result_ret].
  by rewrite IH.
Qed.

Lemma sorted_or_perm {K} (lt : K → K → bool) key dflt (l : list record) :
  sorted_or lt key dflt l ≡ₚ l.
Proof.
  unfold sorted_or. rewrite stable_sort_perm, map_map. simpl. by rewrite map_id.
Qed.

Lemma sort_all_ok acc :
  well_formed acc →
  sort_all acc = Ok (Accs (sort_unused (all_unused acc))
                          (sort_duplicates (all_duplicates acc))
                          (sort_errors (all_errors acc))).
Proof.
  intros (Hu & Hd & He). unfold sort_all.
  rewrite (sorted_ok file_line_lt unused_key ("", 0)).
  2:{ eapply Forall_impl; [exact Hu|]. intros r (f & l & s & ->). by eexists. }
  cbn [mbind result_bind].
  rewrite (sorted_ok file_lines_lt duplicate_key ("", [])).
  2:{ eapply Forall_impl; [exact Hd|]. intros r (f & l & s & ->). by eexists. }
  cbn [mbind result_bind].
  rewrite (sorted_ok str_lt error_key "").
  2:{ eapply Forall_impl; [exact He|]. intros r (f & m & ->). by eexists. }
  reflexivity.
Qed.

Lemma sort_all_well_formed acc :
  well_formed acc →
  well_formed (Accs (sort_unused (all_unused acc))
                    (sort_duplicates (all_duplicates acc))
                    (sort_errors (all_errors acc))).
Proof.
  intros (Hu & Hd & He). unfold well_formed, sort_unused, sort_duplicates, sort_errors.
  simpl. by rewrite !sorted_or_perm.
Qed.

Lemma run_prints_accepted reject ps :
  Forall (λ p, ∃ s : string, p = Ok s) ps →
  Forall (λ s, reject s = None) (printed ps) →
  run_prints reject ps = (printed ps, None).
Proof.
  induction 1 as [|p ps [s ->] _ IH]; [done|].
  intros [Hs Hps]%Forall_cons. simpl in *. by rewrite Hs, (IH Hps).
Qed.

Lemma text_prints_ok r :
  well_formed r → Forall (λ p, ∃ s : string, p = Ok s) (text_prints r).
Proof.
  intros (Hu & Hd & He). unfold text_prints.
  repeat apply Forall_app_2.
  - destruct (all_unused r) as [|x l]; [repeat constructor; by eexists|].
    constructor; [by eexists|]. apply Forall_fmap.
    eapply Forall_impl; [exact Hu|]. intros y (f & n & s & ->). by eexists.
  - destruct (all_duplicates r) as [|x l]; [repeat constructor; by eexists|].
    constructor; [by eexists|]. apply Forall_fmap.
    eapply Forall_impl; [exact Hd|]. intros y (f & n & s & ->). by eexists.
  - destruct (all_errors r) as [|x l]; [constructor|].
    constructor; [by eexists|]. apply Forall_fmap.
    eapply Forall_impl; [exact He|]. intros y (f & m & ->). by eexists.
Qed.

Lemma concat_Forall {X} (P : X → Prop) (ls : list (list X)) :
  Forall (Forall P) ls → Forall P (concat ls).
Proof. induction 1; simpl; [constructor | by apply Forall_app_2]. Qed.

Lemma gathered_well_formed w o files :
  well_formed (Accs (concat (map (file_unused w o) files))
                    (concat (map (file_duplicates w) files))
                    (concat (map (file_errors w) files))).
Proof.
  repeat split; simpl; apply concat_Forall, Forall_fmap, Forall_forall; intros f _.
  - eapply Forall_impl; [apply file_unused_records|].
    intros r (l & s & ->). by exists f, l, s.
  - apply file_duplicates_records.
  - apply file_errors_records.
Qed.

Lemma report_prints_ok w r json :
  well_formed r → Forall (λ p, ∃ s : string, p = Ok s) (report_prints w r json).
Proof.
  intros Hwf. unfold report_prints. destruct json; [|by apply text_prints_ok].
  repeat constructor. by eexists.
Qed.

(** After a successful gathering only [print] can still raise: on a stream
    that accepts the texts of the report, the run prints them and ends with
    exit code 0. *)
Lemma main_reports w o path acc (json : bool) :
  gather w o path = Gathered (Ok acc) →
  well_formed acc →
  Forall (λ s, stdout_error w s = None) (report_texts w acc json) →
  main w o path json = Process (report_texts w acc json) [] (Exit 0).
Proof.
  intros Hg Hwf Hacc. unfold main. rewrite Hg, (sort_all_ok _ Hwf).
  unfold report_texts in *.
  by rewrite run_prints_accepted
    by (done || apply report_prints_ok, sort_all_well_formed, Hwf).
Qed.

Lemma printed_app ps qs : printed (ps ++ qs) = printed ps ++ printed qs.
Proof. apply map_app. Qed.

(** The lines of the plain-text report bear the findings. *)
Lemma unused_line_printed acc file lineno stmt :
  unused_record file lineno stmt ∈ all_unused acc →
  file +:+ ": Line " +:+ pretty lineno +:+ ": " +:+ stmt ∈ printed (text_prints acc).
Proof.
  intros Hin. unfold text_prints. rewrite !printed_app.
  apply elem_of_app. left.
  destruct (all_unused acc) as [|x l] eqn:Hl; [by apply elem_of_nil in Hin|].
  rewrite <- Hl in *. apply elem_of_cons. right.
  apply (list_elem_of_fmap_2 unused_line) in Hin.
  apply (list_elem_of_fmap_2 (λ p, match p with Ok s => s | Raise _ => "" end)) in Hin.
  exact Hin.
Qed.

Lemma duplicate_line_printed acc file lines stmt :
  duplicate_record file lines stmt ∈ all_duplicates acc →
  file +:+ ": Lines " +:+ join ", " (map pretty lines) +:+ ": " +:+ stmt
    ∈ printed (text_prints acc).
Proof.
  intros Hin. unfold text_prints. rewrite !printed_app.
  apply elem_of_app. right. apply elem_of_app. left.
  destruct (all_duplicates acc) as [|x l] eqn:Hl; [by apply elem_of_nil in Hin|].
  rewrite <- Hl in *. apply elem_of_cons. right.
  apply (list_elem_of_fmap_2 duplicate_line) in Hin.
  apply (list_elem_of_fmap_2 (λ p, match p with Ok s => s | Raise _ => "" end)) in Hin.
  exact Hin.
Qed.

Lemma error_line_printed acc file msg :
  error_record file msg ∈ all_errors acc →
  file +:+ ": " +:+ msg ∈ printed (text_prints acc).
Proof.
  intros Hin. unfold text_prints. rewrite !printed_app.
  apply elem_of_app. right. apply elem_of_app. right.
  destruct (all_errors acc) as [|x l] eqn:Hl; [by apply elem_of_nil in Hin|].
  rewrite <- Hl in *. apply elem_of_cons. right.
  apply (list_elem_of_fmap_2 error_line) in Hin.
  apply (list_elem_of_fmap_2 (λ p, match p with Ok s => s | Raise _ => "" end)) in Hin.
  exact Hin.
Qed.

Lemma elem_of_sorted_or {K} (lt : K → K → bool) key dflt (l : list record) r :
  r ∈ l → r ∈ sorted_or lt key dflt l.
Proof. intros Hin. by rewrite sorted_or_perm. Qed.

(** C5 as stated fails: in a directory with a file that is not valid UTF-8
    and a clean file with one unused and one duplicate finding, the failure
    of the first file is not caught; the run ends with the
    [UnicodeDecodeError] uncaught, the clean file is never analysed and
    nothing is reported. *)
Lemma failure_prevents_analysis_counterexample :
  find_python_files_in_directory latin1_then_clean_world "proj"
    = ["proj/latin1.py"; "proj/a.py"]
  ∧ read_and_parse latin1_then_clean_world "proj/latin1.py" = Raise decode_error
  ∧ find_unused_and_duplicate_imports_in_file latin1_then_clean_world forward_order
      "proj/a.py" =
      Ok ([unused_record "proj/a.py" 2 "import json"],
          [duplicate_record "proj/a.py" [1; 2] "import json"])
  ∧ gather latin1_then_clean_world forward_order "proj" = Gathered (Raise decode_error)
  ∧ (∀ json, main latin1_then_clean_world forward_order "proj" json =
               Process [] [] (Traceback decode_error)).
Proof.
  split; [reflexivity|]. split; [reflexivity|].
  split; [vm_compute; reflexivity|]. split; [reflexivity|].
  intros json. reflexivity.
Qed.

(** C5, amended: in a directory holding one file whose read or parse fails
    with [FileNotFoundError], [PermissionError] or [SyntaxError] and one
    clean file on which the analyzer returns, in either order, the run
    gathers the clean file's unused and duplicate findings and exactly one
    error record, for the failing file.  On an output stream that accepts
    the texts of the report the run prints them and ends with exit code 0:
    the structured dump holds the findings and the error record, and the
    plain-text report has the line of each finding and of the error. *)
Theorem clean_file_reported_despite_failure w o path bad good e tree
    unused duplicates :
  os_path_isdir w path = true →
  find_python_files_in_directory w path = [bad; good]
  ∨ find_python_files_in_directory w path = [good; bad] →
  read_and_parse w bad = Raise e →
  caught (exn_cls e) = true →
  read_and_parse w good = Ok tree →
  find_unused_and_duplicate_imports_in_file w o good = Ok (unused, duplicates) →
  let acc := Accs unused duplicates [error_record bad (error_message e)] in
  gather w o path = Gathered (Ok acc)
  ∧ (∀ json, Forall (λ s, stdout_error w s = None) (report_texts w acc json) →
             main w o path json = Process (report_texts w acc json) [] (Exit 0))
  ∧ (∃ unused_sorted duplicates_sorted,
       unused_sorted ≡ₚ unused
       ∧ duplicates_sorted ≡ₚ duplicates
       ∧ report_texts w acc true =
           [json_dumps w unused_sorted duplicates_sorted
              [error_record bad (error_message e)]])
  ∧ (∀ lineno stmt, unused_record good lineno stmt ∈ unused →
       good +:+ ": Line " +:+ pretty lineno +:+ ": " +:+ stmt
         ∈ report_texts w acc false)
  ∧ (∀ lines stmt, duplicate_record good lines stmt ∈ duplicates →
       good +:+ ": Lines " +:+ join ", " (map pretty lines) +:+ ": " +:+ stmt
         ∈ report_texts w acc false)
  ∧ bad +:+ ": " +:+ error_message e ∈ report_texts w acc false.
Proof.
  intros Hdir Hfiles Hbad Hc Hgood Hfind. cbv zeta.
  assert (unused = file_unused w o good ∧ duplicates = file_duplicates w good
          ∧ first_uncaught w [good] = None) as (-> & -> & Hret).
  { rewrite find_spec, Hgood in Hfind. simpl. rewrite Hgood.
    destruct (visit (frames_left w) tree ∅); [|done]. by injection Hfind as <- <-. }
  assert (file_unused w o bad = [] ∧ file_duplicates w bad = []
          ∧ file_errors w bad = [error_record bad (error_message e)]
          ∧ file_errors w good = []) as (Hub & Hdb & Heb & Heg).
  { unfold file_unused, file_duplicates, file_errors. by rewrite Hbad, Hgood. }
  assert (first_uncaught w [bad] = None) as Hbret by (simpl; by rewrite Hbad, Hc).
  assert (gather w o path =
          Gathered (Ok (Accs (file_unused w o good) (file_duplicates w good)
                             [error_record bad (error_message e)])))
    as Hgather.
  { rewrite gather_spec, Hdir.
    destruct Hfiles as [-> | ->]; cbv beta iota zeta;
      rewrite first_uncaught_cons, ?Hbret, ?Hret, ?Hbret; cbn [map concat];
      rewrite Hub, Hdb, Heb, Heg; simpl; by rewrite ?app_nil_r. }
  split; [exact Hgather|]. split.
  { intros json Hacc. apply main_reports; [exact Hgather| |exact Hacc].
    repeat split; simpl.
    - eapply Forall_impl; [apply file_unused_records|].
      intros r (l & s & ->). by eexists _, _, _.
    - apply file_duplicates_records.
    - repeat constructor. by eexists _, _. }
  split.
  { exists (sort_unused (file_unused w o good)),
           (sort_duplicates (file_duplicates w good)).
    split; [apply sorted_or_perm|]. split; [apply sorted_or_perm|]. reflexivity. }
  unfold report_texts, report_prints. split; [|split].
  - intros lineno stmt Hin. apply unused_line_printed. simpl.
    by apply elem_of_sorted_or.
  - intros lines stmt Hin. apply duplicate_line_printed. simpl.
    by apply elem_of_sorted_or.
  - apply error_line_printed. simpl. apply elem_of_sorted_or. by left.
Qed.

Lemma clean_file_reported_despite_failure_witness :
  main mixed_world backward_order "proj" false =
    Process ["Unused imports found:";
             "proj/a.py: Line 2: import json";
             nl +:+ "Duplicate imports found:";
             "proj/a.py: Lines 1, 2: import json";
             nl +:+ "Errors:";
             "proj/bad.py: SyntaxError: invalid syntax (bad.py, line 1)"]
            [] (Exit 0).
Proof.
  destruct (clean_file_reported_despite_failure mixed_world backward_order "proj"
              "proj/bad.py" "proj/a.py" syntax_error json_twice
              [unused_record "proj/a.py" 2 "import json"]
              [duplicate_record "proj/a.py" [1; 2] "import json"]
              eq_refl (or_introl eq_refl) eq_refl eq_refl eq_refl eq_refl)
    as (_ & Hmain & _).
  rewrite (Hmain false); [reflexivity|].
  repeat constructor.
Defined.

(** ** Exit codes *)

Lemma run_prints_rejected reject ps e :
  Forall (λ p, ∃ s : string, p = Ok s) ps →
  (run_prints reject ps).2 = Some e →
  ∃ s, s ∈ printed ps ∧ reject s = Some e.
Proof.
  induction 1 as [|p ps [s ->] _ IH]; [done|]. simpl.
  destruct (reject s) as [e'|] eqn:Hs.
  - intros [= ->]. exists s. split; [by left | done].
  - destruct (run_prints reject ps) as [out r]. simpl in *.
    intros Hr. destruct (IH Hr) as (s' & Hin & Hrej).
    exists s'. split; [by right | done].
Qed.

Lemma main_status w o path acc (json : bool) :
  gather w o path = Gathered (Ok acc) →
  well_formed acc →
  status (main w o path json) =
    match (run_prints (stdout_error w)
             (report_prints w (Accs (sort_unused (all_unused acc))
                                    (sort_duplicates (all_duplicates acc))
                                    (sort_errors (all_errors acc))) json)).2 with
    | None => Exit 0
    | Some e => Traceback e
    end.
Proof.
  intros Hg Hwf. unfold main. rewrite Hg, (sort_all_ok _ Hwf).
  by destruct (run_prints _ _).
Qed.

(** What a run that gathers [acc] does afterwards. *)
Lemma report_outcome w o path acc (json : bool) :
  gather w o path = Gathered (Ok acc) →
  well_formed acc →
  (Forall (λ s, stdout_error w s = None) (report_texts w acc json) →
   main w o path json = Process (report_texts w acc json) [] (Exit 0))
  ∧ (∀ e, status (main w o path json) = Traceback e →
          ∃ s, s ∈ report_texts w acc json ∧ stdout_error w s = Some e).
Proof.
  intros Hg Hwf. split; [by apply main_reports|].
  intros e. rewrite (main_status _ _ _ _ _ Hg Hwf).
  destruct (run_prints _ _).2 as [e'|] eqn:Hr; [|done].
  intros [= ->]. eapply run_prints_rejected; [|exact Hr].
  apply report_prints_ok, sort_all_well_formed, Hwf.
Qed.

(** C6 as stated fails: a directory whose only Python file is not valid
    UTF-8 is neither of the two whole-run failures, yet the run does not exit
    with code 0: the [UnicodeDecodeError] is uncaught and the process status
    is 1. *)
Lemma exit_code_counterexample :
  os_path_isdir latin1_world "proj" = true
  ∧ find_python_files_in_directory latin1_world "proj" = ["proj/latin1.py"]
  ∧ main latin1_world forward_order "proj" false =
      Process [] [] (Traceback decode_error)
  ∧ exit_code (status (main latin1_world forward_order "proj" false)) = 1.
Proof. repeat split. Qed.

(** C6, amended: the run ends through [sys.exit(1)], with its message on
    stderr and nothing on stdout, when the directory holds no matching file
    or the path is neither a directory nor a file.  Otherwise, when a file
    fails with a class the analyzer does not catch, or the visitor raises on
    its tree, the run ends with that exception uncaught and has printed
    nothing.  Otherwise the findings are gathered, and the run prints the
    report and ends with exit code 0 whatever the findings when the output
    stream accepts its texts; it ends with an uncaught exception only when
    the stream rejects one of them. *)
Theorem exit_status w o path json :
  let p := main w o path json in
  if no_input w path
  then status p = Exit 1 ∧ stdout p = [] ∧ ∃ msg, stderr p = [msg]
  else match first_uncaught w (candidates w path) with
       | Some e => p = Process [] [] (Traceback e)
       | None =>
           ∃ acc,
             gather w o path = Gathered (Ok acc)
             ∧ (Forall (λ s, stdout_error w s = None) (report_texts w acc json) →
                p = Process (report_texts w acc json) [] (Exit 0))
             ∧ (∀ e, status p = Traceback e →
                     ∃ s, s ∈ report_texts w acc json ∧ stdout_error w s = Some e)
       end.
Proof.
  cbv zeta. unfold no_input, candidates.
  pose proof (gather_spec w o path) as Hg.
  destruct (os_path_isdir w path).
  - destruct (find_python_files_in_directory w path) as [|file rest].
    + unfold main. rewrite Hg. eauto.
    + cbv zeta in Hg. destruct (first_uncaught w (file :: rest)) as [e|].
      * unfold main. by rewrite Hg.
      * eexists. split; [exact Hg|].
        apply report_outcome; [exact Hg | apply gathered_well_formed].
  - destruct (os_path_isfile w path); cbn [negb].
    + destruct (first_uncaught w [path]) as [e|].
      * unfold main. by rewrite Hg.
      * eexists. split; [exact Hg|]. apply report_outcome; [exact Hg|].
        pose proof (gathered_well_formed w o [path]) as Hwf. simpl in Hwf.
        by rewrite !app_nil_r in Hwf.
    + unfold main. rewrite Hg. eauto.
Qed.

(** ** Runs under different set iteration orders *)

Lemma sorted_keys {K A} (lt : K → K → bool) (l : list (K * A)) :
  StronglySorted (not_after lt) l →
  StronglySorted (λ a b, lt b a = false) (map fst l).
Proof.
  induction 1 as [|x l Hl IH Hx]; simpl; constructor; [exact IH|].
  apply Forall_fmap. exact Hx.
Qed.

Lemma stable_sort_keys {K A} (lt : K → K → bool) (l1 l2 : list (K * A)) :
  strict_total lt → l1 ≡ₚ l2 →
  map fst (stable_sort lt l1) = map fst (stable_sort lt l2).
Proof.
  intros Hlt Hp. apply (StronglySorted_unique_strong (λ a b, lt b a = false)).
  - intros x y _ _ Hxy Hyx. by apply (lt_total lt Hlt).
  - by apply sorted_keys, stable_sort_sorted.
  - by apply sorted_keys, stable_sort_sorted.
  - apply Permutation_map. by rewrite !stable_sort_perm.
Qed.

Lemma sorted_or_keys {K} (lt : K → K → bool) key dflt (l : list record) :
  map (key_or key dflt) (sorted_or lt key dflt l) =
    map fst (stable_sort lt (map (λ r, (key_or key dflt r, r)) l)).
Proof.
  unfold sorted_or. rewrite map_map. apply map_ext_in. intros [k r] Hin. simpl.
  apply list_elem_of_In in Hin. rewrite stable_sort_perm in Hin.
  apply list_elem_of_In, in_map_iff in Hin as (r' & [= <- <-] & _). done.
Qed.

Lemma unused_key_or (l : list record) :
  Forall is_unused_record l →
  map unused_key l = map (λ r, Ok (key_or unused_key ("", 0) r)) l.
Proof.
  intros Hl. apply map_ext_in. intros r Hin.
  rewrite Forall_forall in Hl.
  by destruct (Hl r (proj2 (list_elem_of_In _ _) Hin)) as (f & n & s & ->).
Qed.

Lemma file_unused_perm w o1 o2 file : file_unused w o1 file ≡ₚ file_unused w o2 file.
Proof.
  unfold file_unused. destruct (read_and_parse w file) as [tree|e]; [|done].
  apply Permutation_map. unfold unused_names.
  by rewrite (iter_set_perm o1), (iter_set_perm o2).
Qed.

Lemma files_unused_perm w o1 o2 files :
  concat (map (file_unused w o1) files) ≡ₚ concat (map (file_unused w o2) files).
Proof.
  induction files as [|f files IH]; simpl; [done|].
  by rewrite IH, (file_unused_perm w o1 o2 f).
Qed.

(** Sorting two gatherings that differ by the order of their unused
    findings. *)
Lemma sort_all_agree a1 a2 :
  well_formed a1 → well_formed a2 →
  all_unused a1 ≡ₚ all_unused a2 →
  all_duplicates a1 = all_duplicates a2 →
  all_errors a1 = all_errors a2 →
  ∃ r1 r2,
    sort_all a1 = Ok r1 ∧ sort_all a2 = Ok r2
    ∧ all_duplicates r1 = all_duplicates r2
    ∧ all_errors r1 = all_errors r2
    ∧ all_unused r1 ≡ₚ all_unused r2
    ∧ map unused_key (all_unused r1) = map unused_key (all_unused r2)
    ∧ (NoDup (map unused_key (all_unused r1)) → all_unused r1 = all_unused r2).
Proof.
  intros Hw1 Hw2 Hu Hd He.
  rewrite (sort_all_ok _ Hw1), (sort_all_ok _ Hw2). eexists _, _.
  split; [reflexivity|]. split; [reflexivity|]. simpl.
  split; [by rewrite Hd|]. split; [by rewrite He|].
  pose proof (sort_all_well_formed _ Hw1) as (Hs1 & _).
  pose proof (sort_all_well_formed _ Hw2) as (Hs2 & _). simpl in Hs1, Hs2.
  set (kf := λ r : record, (key_or unused_key ("", 0) r, r)).
  assert (map kf (all_unused a1) ≡ₚ map kf (all_unused a2)) as Hk
    by (by apply Permutation_map).
  split; [|split].
  - unfold sort_unused. by rewrite !sorted_or_perm.
  - rewrite (unused_key_or _ Hs1), (unused_key_or _ Hs2).
    rewrite <- !(map_map (key_or unused_key ("", 0)) Ok). f_equal.
    unfold sort_unused. rewrite !sorted_or_keys.
    apply stable_sort_keys; [apply file_line_lt_strict_total | exact Hk].
  - intros Hnd. unfold sort_unused, sorted_or. f_equal.
    apply stable_sort_unique; [apply file_line_lt_strict_total | exact Hk |].
    rewrite (unused_key_or _ Hs1) in Hnd.
    rewrite <- (map_map (key_or unused_key ("", 0)) Ok) in Hnd.
    apply (NoDup_fmap_1 Ok) in Hnd. unfold sort_unused in Hnd.
    rewrite sorted_or_keys, stable_sort_perm in Hnd. exact Hnd.
Qed.

(** C9 as stated fails: for [import os, sys], both unused on line 1, the two
    findings tie on the sort key (file, line) and the stable sort keeps them
    in the iteration order of the set of unused names, which depends on the
    string hashes of the run. *)
Lemma run_order_counterexample :
  stdout (main os_sys_world forward_order "proj/a.py" false) =
    ["Unused imports found:"; "proj/a.py: Line 1: import os";
     "proj/a.py: Line 1: import sys"; nl +:+ "No duplicate imports found."]
  ∧ stdout (main os_sys_world backward_order "proj/a.py" false) =
    ["Unused imports found:"; "proj/a.py: Line 1: import sys";
     "proj/a.py: Line 1: import os"; nl +:+ "No duplicate imports found."]
  ∧ main os_sys_world forward_order "proj/a.py" false
    ≠ main os_sys_world backward_order "proj/a.py" false.
Proof.
  split; [vm_compute; reflexivity|]. split; [vm_compute; reflexivity|].
  vm_compute. discriminate.
Qed.

(** C9, amended: two runs on the same input, whatever the iteration orders
    of their sets, fail alike or gather findings whose sorted collections
    agree as follows: the duplicate and the error collections are identical,
    order included; the unused collections hold the same findings with the
    same sequence of (file, line) keys, so that they can differ only in the
    relative order of findings of one file and line, and are identical when
    no two unused findings share file and line. *)
Theorem runs_agree_up_to_ties w o1 o2 path :
  match gather w o1 path, gather w o2 path with
  | Fatal msg1, Fatal msg2 => msg1 = msg2
  | Gathered (Raise e1), Gathered (Raise e2) => e1 = e2
  | Gathered (Ok a1), Gathered (Ok a2) =>
      ∃ r1 r2,
        sort_all a1 = Ok r1 ∧ sort_all a2 = Ok r2
        ∧ all_duplicates r1 = all_duplicates r2
        ∧ all_errors r1 = all_errors r2
        ∧ all_unused r1 ≡ₚ all_unused r2
        ∧ map unused_key (all_unused r1) = map unused_key (all_unused r2)
        ∧ (NoDup (map unused_key (all_unused r1)) → all_unused r1 = all_unused r2)
  | _, _ => False
  end.
Proof.
  rewrite !gather_spec. destruct (os_path_isdir w path).
  - destruct (find_python_files_in_directory w path) as [|file rest]; [done|].
    cbv zeta. destruct (first_uncaught w (file :: rest)) as [e|]; [done|].
    apply sort_all_agree; try apply gathered_well_formed; try done.
    apply files_unused_perm.
  - destruct (os_path_isfile w path); [|done].
    destruct (first_uncaught w [path]) as [e|]; [done|].
    pose proof (gathered_well_formed w o1 [path]) as Hw1.
    pose proof (gathered_well_formed w o2 [path]) as Hw2.
    simpl in Hw1, Hw2. rewrite !app_nil_r in Hw1, Hw2.
    apply sort_all_agree; try done. apply file_unused_perm.
Qed.

Lemma runs_agree_up_to_ties_witness :
  ∃ r1 r2,
    sort_all (Accs [unused_record "proj/a.py" 2 "import json"]
                   [duplicate_record "proj/a.py" [1; 2] "import json"]
                   [error_record "proj/bad.py"
                      "SyntaxError: invalid syntax (bad.py, line 1)"]) = Ok r1
    ∧ sort_all (Accs [unused_record "proj/a.py" 2 "import json"]
                     [duplicate_record "proj/a.py" [1; 2] "import json"]
                     [error_record "proj/bad.py"
                        "SyntaxError: invalid syntax (bad.py, line 1)"]) = Ok r2
    ∧ all_unused r1 = all_unused r2.
Proof.
  pose proof (runs_agree_up_to_ties mixed_world forward_order backward_order "proj")
    as H.
  vm_compute in H. destruct H as (r1 & r2 & H1 & H2 & _ & _ & _ & _ & Heq).
  exists r1, r2. split; [exact H1|]. split; [exact H2|].
  apply Heq. injection H1 as <-. apply NoDup_singleton.
Defined.

(** * Further properties of the analyzer and the batch runner *)

(** ** Files without imports, the usage set *)




(** ** The tables of the import loop *)

Lemma append_line_concat stmt lineno d :
  concat (map snd (append_line stmt lineno d)) ≡ₚ lineno :: concat (map snd d).
Proof.
  induction d as [|[k v] d IH]; simpl; [done|].
  destruct (String.eqb k stmt); simpl.
  - rewrite <- app_assoc. simpl. by rewrite <- Permutation_middle.
  - rewrite IH. by rewrite <- Permutation_middle.
Qed.

Lemma tables_lines bs :
  concat (map snd (import_statements (foldl apply_binding empty_tables bs)))
    ≡ₚ map binding_line bs.
Proof.
  induction bs as [|b bs IH] using rev_ind; [done|].
  rewrite foldl_app, map_app. simpl.
  rewrite append_line_concat, IH. by rewrite <- Permutation_cons_append.
Qed.

(** X3: the statement groups lose and invent nothing: their keys are
    pairwise distinct, no group is empty, and the lines of all groups
    together are the lines of the import targets of the tree, each target
    counted once whatever its nesting depth. *)
Theorem statement_groups_partition tree :
  NoDup (map fst (import_statements (scan_imports tree)))
  ∧ Forall (λ item, item.2 ≠ []) (import_statements (scan_imports tree))
  ∧ concat (map snd (import_statements (scan_imports tree)))
      ≡ₚ map binding_line (bindings (pre_order tree)).
Proof.
  split; [|split].
  - rewrite scan_imports_bindings.
    by destruct (tables_spec (bindings (walk tree))) as (_ & _ & Hn & _).
  - apply Forall_forall. intros [stmt lines] Hin.
    by apply stmt_lines_of in Hin as [_ Hne].
  - rewrite scan_imports_bindings, tables_lines.
    by rewrite bindings_walk_pre_order.
Qed.

Lemma lines_of_elem b bs :
  b ∈ bs → binding_line b ∈ lines_of (statement_text b) bs.
Proof.
  intros Hin. unfold lines_of. apply list_elem_of_fmap. exists b. split; [done|].
  apply list_elem_of_In, List.filter_In. split; [by apply list_elem_of_In|].
  apply String.eqb_refl.
Qed.

(** X4: the two tables agree with the set of imported names: a name is in
    [imports] exactly when [import_aliases] has an entry for it (so the
    lookup of line 62 cannot miss), and the line of that entry is one of
    the lines recorded under its statement text. *)
Theorem tables_consistent tree name :
  (name ∈ imports (scan_imports tree) ↔
     is_Some (import_aliases (scan_imports tree) !! name))
  ∧ ∀ lineno stmt,
      import_aliases (scan_imports tree) !! name = Some (lineno, stmt) →
      ∃ lines, (stmt, lines) ∈ import_statements (scan_imports tree)
               ∧ lineno ∈ lines.
Proof.
  rewrite scan_imports_bindings.
  destruct (tables_spec (bindings (walk tree))) as (Hi & Ha & _ & Hs).
  cbv zeta in *. rewrite Hi, Ha. split.
  - rewrite elem_of_list_to_set. split; [apply last_binding_is_Some|].
    intros [[l s] Hl]. apply last_binding_elem in Hl.
    apply list_elem_of_fmap. by exists (Binding name l s).
  - intros lineno stmt Hl. apply last_binding_elem, lines_of_elem in Hl.
    simpl in Hl. exists (lines_of stmt (bindings (walk tree))).
    split; [|exact Hl]. apply stmt_lines_Some. rewrite Hs.
    destruct (lines_of stmt (bindings (walk tree))); [by apply elem_of_nil in Hl|done].
Qed.

Lemma tables_consistent_witness :
  ∃ lines, ("import json", lines) ∈ import_statements (scan_imports nested_json)
           ∧ 2 ∈ lines.
Proof.
  destruct (tables_consistent nested_json "json") as [_ H].
  apply (H 2 "import json"). vm_compute. reflexivity.
Defined.

(** ** The order and shape of the duplicate findings *)

Lemma first_occurrences_elem x l : x ∈ first_occurrences l ↔ x ∈ l.
Proof.
  induction l as [|y l IH]; simpl; [done|].
  rewrite !elem_of_cons, <- IH, !list_elem_of_In, List.filter_In.
  destruct (String.eqb_spec x y) as [->|Hne]; simpl.
  - split; [by left|by left].
  - split; [intros [?|[? _]]; tauto | intros [?|?]; [tauto|]].
    right. split; [done|]. done.
Qed.

Lemma filter_id_not_elem (x : string) l :
  x ∉ l → List.filter (λ y, negb (String.eqb y x)) l = l.
Proof.
  induction l as [|y l IH]; simpl; [done|]. intros Hx.
  apply not_elem_of_cons in Hx as [Hne Hx].
  destruct (String.eqb_spec y x) as [->|_]; [done|]. simpl. by rewrite IH.
Qed.

Lemma first_occurrences_snoc l x :
  first_occurrences (l ++ [x]) =
    if bool_decide (x ∈ l) then first_occurrences l else first_occurrences l ++ [x].
Proof.
  induction l as [|y l IH]; simpl; [done|]. rewrite IH.
  destruct (decide (x = y)) as [->|Hne].
  - rewrite (bool_decide_eq_true_2 (y ∈ y :: l)) by (by left).
    case_bool_decide as Hin; [done|].
    rewrite List.filter_app. simpl. rewrite String.eqb_refl. simpl.
    by rewrite app_nil_r.
  - case_bool_decide as Hin.
    + rewrite bool_decide_eq_true_2 by (by right). done.
    + rewrite bool_decide_eq_false_2
        by (intros [?|?]%elem_of_cons; [congruence|done]).
      rewrite List.filter_app. simpl.
      destruct (String.eqb_spec x y); [congruence|]. done.
Qed.

Lemma append_line_fst stmt lineno d :
  map fst (append_line stmt lineno d) =
    if bool_decide (stmt ∈ map fst d) then map fst d else map fst d ++ [stmt].
Proof.
  induction d as [|[k v] d IH]; simpl; [done|].
  destruct (String.eqb_spec k stmt) as [->|Hne]; simpl.
  - by rewrite bool_decide_eq_true_2 by (by left).
  - rewrite IH. case_bool_decide as Hin.
    + by rewrite bool_decide_eq_true_2 by (by right).
    + by rewrite bool_decide_eq_false_2
        by (intros [?|?]%elem_of_cons; [congruence|done]).
Qed.

Lemma tables_keys bs :
  map fst (import_statements (foldl apply_binding empty_tables bs)) =
    first_occurrences (map statement_text bs).
Proof.
  induction bs as [|b bs IH] using rev_ind; [done|].
  rewrite foldl_app, map_app. simpl.
  rewrite append_line_fst, first_occurrences_snoc, IH.
  destruct (decide (statement_text b ∈ map statement_text bs)) as [Hin|Hin].
  - rewrite !bool_decide_eq_true_2; [done..|]. by apply first_occurrences_elem.
  - rewrite !bool_decide_eq_false_2; [done..|]. by rewrite first_occurrences_elem.
Qed.

Lemma filter_fst_ext {B} (p : string * B → bool) (q : string → bool)
    (d : list (string * B)) :
  (∀ item, item ∈ d → p item = q item.1) →
  map fst (List.filter p d) = List.filter q (map fst d).
Proof.
  induction d as [|x d IH]; simpl; intros H; [done|].
  rewrite <- (H x) by (by left). rewrite <- IH by (intros; apply H; by right).
  by destruct (p x).
Qed.

(** X5: the duplicate findings the analyzer returns for a parsed file are,
    in this order, one per statement text borne by two or more import
    targets, the texts taken in the order of their first occurrence along
    [ast.walk]; each carries all the lines recorded for its text.  So no
    text is reported twice and every finding has at least two lines. *)
Theorem duplicate_findings_in_first_occurrence_order frames o filename tree
    unused duplicates :
  analyse_tree frames o filename tree = Ok (unused, duplicates) →
  duplicates =
    map (λ stmt, duplicate_record filename
                   (lines_of stmt (bindings (walk tree))) stmt)
        (List.filter
           (λ stmt, (1 <? length (lines_of stmt (bindings (walk tree))))%nat)
           (first_occurrences (map statement_text (bindings (walk tree))))).
Proof.
  intros [_ ->]%analyse_tree_returns.
  rewrite duplicate_loop_filter.
  set (bs := bindings (walk tree)).
  set (d := import_statements (scan_imports tree)).
  assert (∀ item, item ∈ d → item.2 = lines_of item.1 bs) as Hd.
  { intros [k v] Hin. by apply stmt_lines_of in Hin as [-> _]. }
  assert (map fst d = first_occurrences (map statement_text bs)) as <-.
  { unfold d. rewrite scan_imports_bindings. apply tables_keys. }
  rewrite <- (filter_fst_ext (λ item, (1 <? length item.2)%nat)).
  2:{ intros item Hin. by rewrite (Hd item Hin). }
  rewrite map_map. apply map_ext_in. intros [k v] Hin.
  apply List.filter_In in Hin as [Hin _]. apply list_elem_of_In in Hin.
  unfold duplicate_of. by rewrite <- (Hd _ Hin).
Qed.

Lemma duplicate_findings_in_first_occurrence_order_witness :
  [duplicate_record "m.py" [3; 2] "import json"] =
    map (λ stmt, duplicate_record "m.py"
                   (lines_of stmt (bindings (walk nested_json))) stmt)
        (List.filter
           (λ stmt, (1 <? length (lines_of stmt (bindings (walk nested_json))))%nat)
           (first_occurrences (map statement_text (bindings (walk nested_json))))).
Proof.
  apply (duplicate_findings_in_first_occurrence_order 997 forward_order "m.py"
           nested_json [unused_record "m.py" 2 "import json"]).
  vm_compute. reflexivity.
Defined.

(** ** Bound names and canonical statement texts *)

(** X6: a plain import without alias binds the first segment of its dotted
    module path: the bound name has no dot and the module path is the bound
    name, alone or followed by a dot and the rest of the path.  With an
    alias the bound name is the alias. *)
Theorem plain_import_bound_name a :
  match alias_asname a with
  | None =>
      (dot ∉ chars (import_name a))
      ∧ (∃ rest, alias_name a = import_name a +:+ rest
                 ∧ (rest = "" ∨ ∃ r, rest = String dot r))
  | Some asname => asname ≠ "" → import_name a = asname
  end.
Proof.
  destruct a as [name [asname|]]; unfold import_name; simpl.
  - intros Hne. by destruct (String.eqb_spec asname "").
  - apply split_dot_head_spec.
Qed.

Lemma plain_import_bound_name_witness :
  import_name (Alias "numpy" (Some "np")) = "np".
Proof.
  apply (plain_import_bound_name (Alias "numpy" (Some "np"))). discriminate.
Defined.

Lemma append_no_space n1 : ∀ n2 r1 r2,
  space ∉ chars n1 → space ∉ chars n2 →
  (r1 = "" ∨ ∃ r, r1 = String space r) →
  (r2 = "" ∨ ∃ r, r2 = String space r) →
  n1 +:+ r1 = n2 +:+ r2 → n1 = n2 ∧ r1 = r2.
Proof.
  induction n1 as [|c n1 IH]; intros [|c' n2] r1 r2 H1 H2 Hr1 Hr2;
    rewrite ?append_cons, ?append_nil_l; cbn [chars] in *.
  - done.
  - intros ->. destruct Hr1 as [|[r Hr]]; [done|]. injection Hr as -> _.
    exfalso. apply H2. by left.
  - intros <-. destruct Hr2 as [|[r Hr]]; [done|]. injection Hr as -> _.
    exfalso. apply H1. by left.
  - intros [= -> Heq].
    apply not_elem_of_cons in H1 as [_ H1]. apply not_elem_of_cons in H2 as [_ H2].
    destruct (IH n2 r1 r2 H1 H2 Hr1 Hr2 Heq) as [-> ->]. done.
Qed.

Lemma as_clause_shape a :
  as_clause a = "" ∨ ∃ r, as_clause a = String space r.
Proof.
  unfold as_clause. destruct (truthy (alias_asname a)); [right|by left].
  rewrite append_cons. by eexists.
Qed.

Lemma as_clause_inj a b :
  alias_asname a ≠ Some "" → alias_asname b ≠ Some "" →
  as_clause a = as_clause b → alias_asname a = alias_asname b.
Proof.
  unfold as_clause. destruct a as [na [x|]], b as [nb [y|]]; simpl; intros Ha Hb.
  - destruct (String.eqb_spec x ""), (String.eqb_spec y ""); simpl; try congruence.
    rewrite !append_cons, !append_nil_l. intros [= ->]. done.
  - destruct (String.eqb_spec x ""); simpl; [congruence|].
    rewrite !append_cons. discriminate.
  - destruct (String.eqb_spec y ""); simpl; [congruence|].
    rewrite !append_cons. discriminate.
  - done.
Qed.

Lemma name_clause_inj a b :
  space ∉ chars (alias_name a) → space ∉ chars (alias_name b) →
  alias_asname a ≠ Some "" → alias_asname b ≠ Some "" →
  alias_name a +:+ as_clause a = alias_name b +:+ as_clause b → a = b.
Proof.
  intros Ha Hb Na Nb Heq.
  apply append_no_space in Heq as [Hn Hc]; auto using as_clause_shape.
  apply as_clause_inj in Hc; [|done..].
  destruct a, b; simpl in *; congruence.
Qed.

Lemma from_module_inj m1 m2 :
  m1 ≠ Some "" → m2 ≠ Some "" → from_module m1 = from_module m2 → m1 = m2.
Proof.
  unfold from_module. destruct m1 as [x|], m2 as [y|]; simpl; intros H1 H2.
  - destruct (String.eqb_spec x ""), (String.eqb_spec y ""); simpl; congruence.
  - destruct (String.eqb_spec x ""); simpl; congruence.
  - destruct (String.eqb_spec y ""); simpl; congruence.
  - done.
Qed.

(** X7: for imports as the parser makes them (no space in a module path or
    a name, no empty alias, no empty module) the canonical text identifies
    the import: two plain imports have the same text exactly when module
    path and alias agree, two from-imports exactly when module, name and
    alias agree, and a plain import never has the text of a from-import. *)
Theorem canonical_text_identifies_import a b m1 m2 :
  space ∉ chars (alias_name a) → space ∉ chars (alias_name b) →
  space ∉ chars (from_module m1) → space ∉ chars (from_module m2) →
  alias_asname a ≠ Some "" → alias_asname b ≠ Some "" →
  m1 ≠ Some "" → m2 ≠ Some "" →
  (import_stmt_str a = import_stmt_str b ↔ a = b)
  ∧ (from_stmt_str m1 a = from_stmt_str m2 b ↔ m1 = m2 ∧ a = b)
  ∧ import_stmt_str a ≠ from_stmt_str m2 b.
Proof.
  intros Ha Hb Hm1 Hm2 Na Nb Nm1 Nm2. split; [|split].
  - split; [|by intros ->]. unfold import_stmt_str.
    rewrite !append_cons, !append_nil_l. intros [= Heq].
    by apply name_clause_inj.
  - split.
    + unfold from_stmt_str. rewrite !append_cons, !append_nil_l.
      intros [= Heq].
      apply append_no_space in Heq as [Hm Heq]; [|done|done|right; by eexists..].
      split; [by apply from_module_inj|].
      injection Heq as Heq. by apply name_clause_inj.
    + by intros [-> ->].
  - unfold import_stmt_str, from_stmt_str. rewrite !append_cons. discriminate.
Qed.

Ltac not_among :=
  let H := fresh in
  cbn [chars from_module truthy str_or_empty alias_name]; intros H;
  repeat (apply elem_of_cons in H as [H|H]; [discriminate H|]);
  apply elem_of_nil in H; exact H.

Lemma canonical_text_identifies_import_witness :
  from_stmt_str (Some "os") (Alias "path" None)
    ≠ from_stmt_str (Some "sys") (Alias "path" None)
  ∧ from_stmt_str None (Alias "path" None)
    ≠ from_stmt_str (Some "sys") (Alias "path" None)
  ∧ import_stmt_str (Alias "path" None)
    ≠ from_stmt_str (Some "sys") (Alias "path" None).
Proof.
  destruct (canonical_text_identifies_import
              (Alias "path" None) (Alias "path" None) (Some "os") (Some "sys"))
    as (_ & Hfrom & Hmix); [not_among | not_among | not_among | not_among
                           | discriminate.. |].
  destruct (canonical_text_identifies_import
              (Alias "path" None) (Alias "path" None) None (Some "sys"))
    as (_ & Hnone & _); [not_among | not_among | not_among | not_among
                        | discriminate.. |].
  split; [|split; [|exact Hmix]].
  - intros Heq. apply Hfrom in Heq as [Hm _]. discriminate Hm.
  - intros Heq. apply Hnone in Heq as [Hm _]. discriminate Hm.
Defined.

(** ** Finding the files of a directory *)

Lemma substring_full s : String.substring 0 (String.length s) s = s.
Proof. induction s as [|c s IH]; simpl; [done|]. by rewrite IH. Qed.

Lemma substring_suffix pre suf :
  String.substring (String.length pre) (String.length suf) (pre +:+ suf) = suf.
Proof.
  induction pre as [|c pre IH]; [rewrite append_nil_l; apply substring_full|].
  rewrite append_cons. simpl. exact IH.
Qed.

Lemma length_append a b :
  String.length (a +:+ b) = (String.length a + String.length b)%nat.
Proof.
  induction a as [|c a IH]; [done|]. rewrite append_cons. simpl. by rewrite IH.
Qed.

Lemma substring_split s : ∀ m,
  (m ≤ String.length s)%nat →
  s = String.substring 0 m s +:+ String.substring m (String.length s - m) s.
Proof.
  induction s as [|c s IH]; intros [|m] Hm; simpl in *.
  - done.
  - lia.
  - rewrite append_nil_l. by rewrite substring_full.
  - rewrite append_cons. f_equal. apply IH. lia.
Qed.

Lemma endswith_spec s suffix :
  endswith s suffix = true ↔ ∃ stem, s = stem +:+ suffix.
Proof.
  unfold endswith. rewrite andb_true_iff, Nat.leb_le, String.eqb_eq. split.
  - intros [Hle Hsub].
    exists (String.substring 0 (String.length s - String.length suffix) s).
    pose proof (substring_split s (String.length s - String.length suffix))
      as Hs.
    replace (String.length s - (String.length s - String.length suffix))%nat
      with (String.length suffix) in Hs by lia.
    rewrite Hsub in Hs. apply Hs. lia.
  - intros [stem ->]. rewrite length_append. split; [lia|].
    replace (String.length stem + String.length suffix - String.length suffix)%nat
      with (String.length stem) by lia.
    apply substring_suffix.
Qed.

(** X8: the files of a directory run are exactly the paths
    [os.path.join(root, file)] for the triples [(root, dirs, files)] of
    [os.walk] and the files whose name is some stem followed by [".py"]
    (the stem may be empty; the match is case sensitive). *)
Theorem python_files_found w directory p :
  p ∈ find_python_files_in_directory w directory ↔
    ∃ root dirs files stem,
      (root, dirs, files) ∈ os_walk w directory
      ∧ (stem +:+ ".py") ∈ files
      ∧ p = os_path_join w root (stem +:+ ".py").
Proof.
  unfold find_python_files_in_directory.
  rewrite list_elem_of_In, in_concat. split.
  - intros (l & Hl & Hp). apply in_map_iff in Hl as ([[root dirs] files] & <- & Ht).
    apply in_map_iff in Hp as (file & <- & Hf).
    apply List.filter_In in Hf as [Hf Hend].
    apply endswith_spec in Hend as [stem ->].
    exists root, dirs, files, stem. by rewrite !list_elem_of_In.
  - intros (root & dirs & files & stem & Ht & Hf & ->).
    exists (map (os_path_join w root)
                (List.filter (λ file, endswith file ".py") files)).
    split.
    + apply in_map_iff. exists (root, dirs, files). by rewrite <- list_elem_of_In.
    + apply in_map. apply List.filter_In. split; [by apply list_elem_of_In|].
      apply endswith_spec. by exists stem.
Qed.

(** ** Runs over several files *)

Lemma returns_first_uncaught w o f :
  first_uncaught w [f] =
    match find_unused_and_duplicate_imports_in_file w o f with
    | Ok _ => None
    | Raise e => Some e
    end.
Proof.
  rewrite find_spec. simpl. destruct (read_and_parse w f) as [tree|e].
  - by destruct (visit (frames_left w) tree ∅).
  - by destruct (caught (exn_cls e)).
Qed.

Lemma first_uncaught_None w o files :
  Forall (λ f, ∃ unused duplicates,
            find_unused_and_duplicate_imports_in_file w o f = Ok (unused, duplicates))
         files →
  first_uncaught w files = None.
Proof.
  induction 1 as [|f files (u & d & Hf) _ IH]; [done|].
  by rewrite first_uncaught_cons, (returns_first_uncaught w o), Hf.
Qed.

Lemma first_uncaught_app w o pre f post e :
  first_uncaught w pre = None →
  find_unused_and_duplicate_imports_in_file w o f = Raise e →
  first_uncaught w (pre ++ f :: post) = Some e.
Proof.
  intros Hpre Hf. induction pre as [|g pre IH].
  - simpl app. by rewrite first_uncaught_cons, (returns_first_uncaught w o), Hf.
  - rewrite first_uncaught_cons in Hpre. simpl app. rewrite first_uncaught_cons.
    destruct (first_uncaught w [g]); [done|]. by apply IH.
Qed.

Lemma file_errors_files w files :
  map (dict_get "file") (concat (map (file_errors w) files)) =
    map (λ f, Some (VStr f)) (List.filter (fails w) files).
Proof.
  induction files as [|f files IH]; simpl; [done|].
  rewrite map_app, IH. unfold file_errors, fails.
  by destruct (read_and_parse w f).
Qed.

Lemma file_findings_parsed w o f :
  Forall (λ r, fails w f = false ∧ dict_get "file" r = Some (VStr f))
         (file_unused w o f ++ file_duplicates w f).
Proof.
  apply Forall_app_2.
  - pose proof (file_unused_records w o f) as H. unfold file_unused, fails in *.
    destruct (read_and_parse w f); [|constructor].
    eapply Forall_impl; [exact H|]. by intros r (l & s & ->).
  - unfold file_duplicates, fails. destruct (read_and_parse w f); [|constructor].
    rewrite duplicate_loop_filter. apply Forall_fmap, Forall_forall.
    by intros [stmt lines] _.
Qed.

(** X9: when the analysis of every file returns, the loop over the files
    returns; its error collection holds one record per file whose read or
    parse failed, in the order of the files, and every unused or duplicate
    finding it gathers belongs to a file that parsed. *)
Theorem files_gathered_without_abort w o files :
  Forall (λ f, ∃ unused duplicates,
            find_unused_and_duplicate_imports_in_file w o f = Ok (unused, duplicates))
         files →
  ∃ acc,
    analyse_files w o files empty_accs = Ok acc
    ∧ map (dict_get "file") (all_errors acc) =
        map (λ f, Some (VStr f)) (List.filter (fails w) files)
    ∧ Forall (λ r, ∃ f, f ∈ files ∧ fails w f = false
                        ∧ dict_get "file" r = Some (VStr f))
             (all_unused acc ++ all_duplicates acc).
Proof.
  intros Hc. rewrite analyse_files_spec, (first_uncaught_None _ _ _ Hc).
  eexists. split; [reflexivity|]. simpl. split; [apply file_errors_files|].
  apply Forall_app_2; apply concat_Forall, Forall_fmap, Forall_forall;
    intros f Hf; pose proof (file_findings_parsed w o f) as [Hu Hd]%Forall_app;
    [eapply Forall_impl; [exact Hu|] | eapply Forall_impl; [exact Hd|]];
    intros r [? ?]; by exists f.
Qed.

Lemma files_gathered_without_abort_witness :
  ∃ acc,
    analyse_files mixed_world forward_order ["proj/bad.py"; "proj/a.py"] empty_accs
      = Ok acc
    ∧ map (dict_get "file") (all_errors acc) = [Some (VStr "proj/bad.py")].
Proof.
  destruct (files_gathered_without_abort mixed_world forward_order
              ["proj/bad.py"; "proj/a.py"]) as (acc & Hacc & Herr & _).
  - repeat constructor; eexists _, _; vm_compute; reflexivity.
  - exists acc. split; [exact Hacc | exact Herr].
Defined.

(** X10: when the analyses of the files before it return, an exception that
    leaves the analyzer on a file (a failure of a class it does not catch,
    or the visitor's [RecursionError]) aborts the whole directory run at
    that file: the exception leaves [main], nothing is printed, and the
    findings of the files analysed before it are lost. *)
Theorem uncaught_failure_aborts_run w o path json pre f post e :
  os_path_isdir w path = true →
  find_python_files_in_directory w path = pre ++ f :: post →
  Forall (λ g, ∃ unused duplicates,
            find_unused_and_duplicate_imports_in_file w o g = Ok (unused, duplicates))
         pre →
  find_unused_and_duplicate_imports_in_file w o f = Raise e →
  analyse_files w o (pre ++ f :: post) empty_accs = Raise e
  ∧ main w o path json = Process [] [] (Traceback e).
Proof.
  intros Hdir Hfiles Hpre Hf.
  pose proof (first_uncaught_app w o pre f post e
                (first_uncaught_None _ _ _ Hpre) Hf) as Hfirst.
  split; [by rewrite analyse_files_spec, Hfirst|].
  unfold main. rewrite gather_spec, Hdir, Hfiles.
  destruct (pre ++ f :: post) eqn:E; [by destruct pre|].
  cbv zeta. by rewrite Hfirst.
Qed.

Lemma uncaught_failure_aborts_run_witness :
  main clean_then_latin1_world forward_order "proj" true =
    Process [] [] (Traceback decode_error).
Proof.
  apply (uncaught_failure_aborts_run clean_then_latin1_world forward_order
           "proj" true ["proj/a.py"] "proj/latin1.py" [] decode_error);
    try reflexivity.
  repeat constructor. eexists _, _. vm_compute. reflexivity.
Defined.

(** X11: every record of a per-file result carries the analysed file name
    under ["file"], whether it reports an error, an unused import or a
    duplicate. *)
Theorem records_carry_file_name w o filename unused duplicates :
  find_unused_and_duplicate_imports_in_file w o filename = Ok (unused, duplicates) →
  Forall (λ r, dict_get "file" r = Some (VStr filename)) (unused ++ duplicates).
Proof.
  rewrite find_spec. intros H.
  pose proof (file_findings_parsed w o filename) as Hp.
  destruct (read_and_parse w filename) as [tree|e].
  - destruct (visit (frames_left w) tree ∅); [|done].
    injection H as <- <-. eapply Forall_impl; [exact Hp|]. by intros r [_ ?].
  - destruct (caught (exn_cls e)); [|done]. injection H as <- <-.
    by repeat constructor.
Qed.

Lemma records_carry_file_name_witness :
  Forall (λ r, dict_get "file" r = Some (VStr "proj/a.py"))
         ([unused_record "proj/a.py" 2 "import json"]
          ++ [duplicate_record "proj/a.py" [1; 2] "import json"]).
Proof.
  apply (records_carry_file_name mixed_world backward_order "proj/a.py").
  reflexivity.
Defined.

(** ** The sorted collections and the report *)

Lemma lines_lt_irrefl a : lines_lt a a = false.
Proof.
  induction a as [|x a IH]; simpl; [done|].
  by rewrite Z.ltb_irrefl, Z.eqb_refl, IH.
Qed.

Lemma lines_lt_trans a : ∀ b c,
  lines_lt a b = true → lines_lt b c = true → lines_lt a c = true.
Proof.
  induction a as [|x a IH]; intros [|y b] [|z c]; simpl; try done.
  intros [Hxy|[Hxy Hab]%andb_true_iff]%orb_true_iff
         [Hyz|[Hyz Hbc]%andb_true_iff]%orb_true_iff;
    apply orb_true_iff.
  - left. lia.
  - left. lia.
  - left. lia.
  - right. apply andb_true_iff. split; [lia|]. by apply (IH b c).
Qed.

Lemma lines_lt_total a : ∀ b,
  lines_lt a b = false → lines_lt b a = false → a = b.
Proof.
  induction a as [|x a IH]; intros [|y b]; simpl; try done.
  intros [Hxy Hab]%orb_false_iff [Hyx Hba]%orb_false_iff.
  assert (x = y) as -> by lia. rewrite Z.eqb_refl in Hab, Hba. simpl in *.
  f_equal. by apply IH.
Qed.

Lemma file_lines_lt_strict_total : strict_total file_lines_lt.
Proof.
  pose proof str_lt_strict_total as [Hi Ht Ho].
  unfold file_lines_lt. split.
  - intros [f l]. simpl. by rewrite Hi, String.eqb_refl, lines_lt_irrefl.
  - intros [f1 l1] [f2 l2] [f3 l3]. simpl.
    intros [H12|[E12 L12]%andb_true_iff]%orb_true_iff
           [H23|[E23 L23]%andb_true_iff]%orb_true_iff.
    + by rewrite (Ht _ _ _ H12 H23).
    + apply String.eqb_eq in E23 as <-. by rewrite H12.
    + apply String.eqb_eq in E12 as ->. by rewrite H23.
    + apply String.eqb_eq in E12 as ->. rewrite E23.
      apply orb_true_iff; right. apply andb_true_iff; split; [done|].
      by apply (lines_lt_trans l1 l2 l3).
  - intros [f1 l1] [f2 l2]. simpl.
    intros [H12 G12]%orb_false_iff [H21 G21]%orb_false_iff.
    pose proof (Ho _ _ H12 H21) as ->.
    rewrite String.eqb_refl in G12, G21. simpl in *. f_equal.
    by apply lines_lt_total.
Qed.

Lemma keyed_sorted {K} (lt : K → K → bool) key (l : list (K * record)) :
  StronglySorted (not_after lt) l →
  Forall (λ e, key e.2 = Ok e.1) l →
  StronglySorted (key_le lt key) (map snd l).
Proof.
  induction 1 as [|x l Hl IH Hx]; simpl; intros Hk; [constructor|].
  apply Forall_cons in Hk as [Hkx Hk]. constructor; [by apply IH|].
  apply Forall_fmap, Forall_forall. intros y Hy.
  rewrite Forall_forall in Hx, Hk. unfold key_le. simpl.
  rewrite Hkx, (Hk y Hy). exact (Hx y Hy).
Qed.

Lemma sorted_or_sorted {K} (lt : K → K → bool) key dflt (l : list record) :
  strict_total lt →
  Forall (λ r, ∃ k, key r = Ok k) l →
  StronglySorted (key_le lt key) (sorted_or lt key dflt l).
Proof.
  intros Hlt Hl. unfold sorted_or. apply keyed_sorted.
  - by apply stable_sort_sorted.
  - rewrite stable_sort_perm. apply Forall_fmap.
    eapply Forall_impl; [exact Hl|]. intros r [k Hk]. simpl.
    unfold key_or. by rewrite Hk.
Qed.

Lemma gather_well_formed w o path acc :
  gather w o path = Gathered (Ok acc) → well_formed acc.
Proof.
  rewrite gather_spec. destruct (os_path_isdir w path).
  - destruct (find_python_files_in_directory w path) as [|file rest]; [done|].
    cbv zeta. destruct (first_uncaught w (file :: rest)); [done|].
    intros [= <-]. apply (gathered_well_formed w o (file :: rest)).
  - destruct (os_path_isfile w path); [|done].
    destruct (first_uncaught w [path]); [done|]. intros [= <-].
    pose proof (gathered_well_formed w o [path]) as H. simpl in H.
    by rewrite !app_nil_r in H.
Qed.

(** X12: after a successful gathering the three sorts return, each
    collection keeps exactly its findings, and each is in ascending order of
    its key: unused findings by (file, line), duplicate findings by (file,
    list of lines), error findings by file. *)
Theorem collections_sorted_by_key w o path acc :
  gather w o path = Gathered (Ok acc) →
  ∃ r,
    sort_all acc = Ok r
    ∧ all_unused r ≡ₚ all_unused acc
    ∧ all_duplicates r ≡ₚ all_duplicates acc
    ∧ all_errors r ≡ₚ all_errors acc
    ∧ StronglySorted (key_le file_line_lt unused_key) (all_unused r)
    ∧ StronglySorted (key_le file_lines_lt duplicate_key) (all_duplicates r)
    ∧ StronglySorted (key_le str_lt error_key) (all_errors r).
Proof.
  intros Hg. pose proof (gather_well_formed _ _ _ _ Hg) as Hwf.
  rewrite (sort_all_ok _ Hwf). eexists. split; [reflexivity|]. simpl.
  destruct Hwf as (Hu & Hd & He).
  repeat split; try apply sorted_or_perm.
  - apply sorted_or_sorted; [apply file_line_lt_strict_total|].
    eapply Forall_impl; [exact Hu|]. intros r (f & l & s & ->). by eexists.
  - apply sorted_or_sorted; [apply file_lines_lt_strict_total|].
    eapply Forall_impl; [exact Hd|]. intros r (f & l & s & ->). by eexists.
  - apply sorted_or_sorted; [apply str_lt_strict_total|].
    eapply Forall_impl; [exact He|]. intros r (f & m & ->). by eexists.
Qed.

Lemma collections_sorted_by_key_witness :
  ∃ r,
    sort_all (Accs [unused_record "proj/a.py" 2 "import json"]
                   [duplicate_record "proj/a.py" [1; 2] "import json"]
                   [error_record "proj/bad.py"
                      "SyntaxError: invalid syntax (bad.py, line 1)"]) = Ok r
    ∧ StronglySorted (key_le file_line_lt unused_key) (all_unused r).
Proof.
  destruct (collections_sorted_by_key mixed_world forward_order "proj" _ eq_refl)
    as (r & Hr & _ & _ & _ & Hs & _).
  exists r. split; [exact Hr | exact Hs].
Defined.

Lemma insert_stable_filter {K A} `{EqDecision K} (lt : K → K → bool) (k : K)
    (x : K * A) l :
  (∀ a, lt a a = false) →
  List.filter (λ e, bool_decide (e.1 = k)) (insert_stable lt x l) =
    List.filter (λ e, bool_decide (e.1 = k)) (x :: l).
Proof.
  intros Hirr. induction l as [|y l IH]; [done|].
  cbn [insert_stable]. destruct (lt y.1 x.1) eqn:Hyx; [|done].
  cbn [List.filter] in *. rewrite IH.
  destruct (decide (x.1 = k)) as [Hx|Hx].
  - rewrite (bool_decide_eq_true_2 _ Hx).
    rewrite bool_decide_eq_false_2; [done|].
    intros Hy. rewrite Hx, <- Hy, Hirr in Hyx. done.
  - by rewrite (bool_decide_eq_false_2 _ Hx).
Qed.

Lemma stable_sort_filter {K A} `{EqDecision K} (lt : K → K → bool) (k : K)
    (l : list (K * A)) :
  (∀ a, lt a a = false) →
  List.filter (λ e, bool_decide (e.1 = k)) (stable_sort lt l) =
    List.filter (λ e, bool_decide (e.1 = k)) l.
Proof.
  intros Hirr. unfold stable_sort. induction l as [|x l IH]; [done|].
  cbn [foldr]. rewrite insert_stable_filter by done.
  cbn [List.filter]. by rewrite IH.
Qed.

Lemma filter_snd_keyed {K} `{EqDecision K} key (k : K) (l : list (K * record)) :
  Forall (λ e, key e.2 = Ok e.1) l →
  with_key key k (map snd l) =
    map snd (List.filter (λ e, bool_decide (e.1 = k)) l).
Proof.
  unfold with_key. induction 1 as [|e l He _ IH]; [done|].
  cbn [map List.filter]. rewrite IH, He.
  destruct (decide (e.1 = k)) as [->|Hne].
  - by rewrite !bool_decide_eq_true_2.
  - rewrite !bool_decide_eq_false_2; [done..|congruence].
Qed.

Lemma sorted_or_stable {K} `{EqDecision K} (lt : K → K → bool) key dflt (k : K)
    (l : list record) :
  (∀ a, lt a a = false) →
  Forall (λ r, ∃ k', key r = Ok k') l →
  with_key key k (sorted_or lt key dflt l) = with_key key k l.
Proof.
  intros Hirr Hl. unfold sorted_or.
  assert (Forall (λ e : K * record, key e.2 = Ok e.1)
                 (map (λ r, (key_or key dflt r, r)) l)) as Hk.
  { apply Forall_fmap. eapply Forall_impl; [exact Hl|].
    intros r [k' Hk']. simpl. unfold key_or. by rewrite Hk'. }
  rewrite filter_snd_keyed by (by rewrite stable_sort_perm).
  rewrite stable_sort_filter by done.
  rewrite <- (filter_snd_keyed key k) by done. by rewrite map_map, map_id.
Qed.

(** X15: the three sorts are stable: the findings that share a sort key
    stand in the sorted collection in the order in which they were
    gathered. *)
Theorem sorts_keep_gathered_order_of_ties w o path acc :
  gather w o path = Gathered (Ok acc) →
  ∃ r,
    sort_all acc = Ok r
    ∧ (∀ k, with_key unused_key k (all_unused r) =
            with_key unused_key k (all_unused acc))
    ∧ (∀ k, with_key duplicate_key k (all_duplicates r) =
            with_key duplicate_key k (all_duplicates acc))
    ∧ (∀ k, with_key error_key k (all_errors r) =
            with_key error_key k (all_errors acc)).
Proof.
  intros Hg. pose proof (gather_well_formed _ _ _ _ Hg) as Hwf.
  rewrite (sort_all_ok _ Hwf). eexists. split; [reflexivity|]. simpl.
  destruct Hwf as (Hu & Hd & He).
  split; [|split]; intros k; apply sorted_or_stable.
  - apply (lt_irrefl _ file_line_lt_strict_total).
  - eapply Forall_impl; [exact Hu|]. intros r (f & l & s & ->). by eexists.
  - apply (lt_irrefl _ file_lines_lt_strict_total).
  - eapply Forall_impl; [exact Hd|]. intros r (f & l & s & ->). by eexists.
  - apply (lt_irrefl _ str_lt_strict_total).
  - eapply Forall_impl; [exact He|]. intros r (f & m & ->). by eexists.
Qed.

Lemma sorts_keep_gathered_order_of_ties_witness :
  ∃ r,
    sort_all (Accs [unused_record "proj/a.py" 1 "import os";
                    unused_record "proj/a.py" 1 "import sys"] [] []) = Ok r
    ∧ with_key unused_key ("proj/a.py", 1) (all_unused r) =
        [unused_record "proj/a.py" 1 "import os";
         unused_record "proj/a.py" 1 "import sys"].
Proof.
  destruct (sorts_keep_gathered_order_of_ties os_sys_world forward_order
              "proj/a.py" _ eq_refl) as (r & Hr & Hu & _).
  exists r. split; [exact Hr|]. rewrite Hu. reflexivity.
Defined.
